(** * hw5: the questionnaire analysis of [hw5.py]

    A shallow embedding of the class [QuestionnaireAnalysis] and of the
    parts of [re], [numpy] and [pandas] its five methods go through,
    followed by the properties of the methods.

    Conventions of the embedding:
    - a [float64] cell is [option Q]: [None] is NaN, [Some x] a finite value
      with exact arithmetic;
    - a [str] is a [string], read as a sequence of ASCII code points;
    - an exception is the left summand of [result]; the object is not
      observed after an exception;
    - a method is a function of the object's state that returns its value
      together with the state it leaves;
    - the library calls have the behaviour of pandas 1.x, the version the
      methods run on: an assignment through [df[col].loc] reaches the
      frame, and the mean of a group leaves the columns that are not
      numeric out. *)

From Stdlib Require Import List String Ascii Bool Arith ZArith QArith Qround Lia Lqa.
From Stdlib Require Import Sorting.Sorted.
From Stdlib Require Import Sorting.Permutation.
Import ListNotations.

Set Implicit Arguments.
Close Scope Q_scope.
Open Scope string_scope.
Open Scope list_scope.

(** ** Exceptions and the method monad *)

Inductive exn : Type :=
| ValueError
| KeyError
| TypeError
| AttributeError.

Definition result (A : Type) : Type := (exn + A)%type.

Definition Ok {A} (a : A) : result A := inr a.
Definition Raise {A} (e : exn) : result A := inl e.

(** ** [re]: the fragment of regular expressions the email pattern uses *)

Module Re.

(** A pattern is a sequence of items: the anchors [^] and [$] and a
    character class under a quantifier [{lo,hi}] ([hi = None] for [+]). *)
Inductive item : Type :=
| Bol
| Eol
| Rep (cls : ascii -> bool) (lo : nat) (hi : option nat).

Definition pattern : Type := list item.

Definition in_range (lo hi c : ascii) : bool :=
  ((nat_of_ascii lo <=? nat_of_ascii c) && (nat_of_ascii c <=? nat_of_ascii hi))%nat.

(** [[a-z0-9]] *)
Definition lower_alnum (c : ascii) : bool :=
  in_range "a" "z" c || in_range "0" "9" c.

(** [\w] on ASCII text: [[a-zA-Z0-9_]] *)
Definition word (c : ascii) : bool :=
  in_range "a" "z" c || in_range "A" "Z" c || in_range "0" "9" c || Ascii.eqb c "_".

(** A class that lists its members, as [[\._]], [[@]] and [[.]] do. *)
Definition one_of (cs : list ascii) (c : ascii) : bool :=
  existsb (Ascii.eqb c) cs.

Definition newline : ascii := ascii_of_nat 10.

Definition may_take (hi : option nat) : bool :=
  match hi with
  | None => true
  | Some 0 => false
  | Some (S _) => true
  end.

Definition taken (hi : option nat) : option nat :=
  match hi with
  | None => None
  | Some h => Some (pred h)
  end.

(** [rep cls k lo hi bos s]: the quantified class at the head of [s],
    followed by the rest of the pattern [k].  [bos] tells whether the
    position is the beginning of the string.  Every admissible number of
    repetitions is tried, which is what backtracking amounts to for a
    yes-or-no answer. *)
Fixpoint rep (cls : ascii -> bool) (k : bool -> list ascii -> bool)
         (lo : nat) (hi : option nat) (bos : bool) (s : list ascii) : bool :=
  (match lo with 0 => k bos s | S _ => false end)
  || match s with
     | [] => false
     | c :: s' =>
         cls c && may_take hi && rep cls k (pred lo) (taken hi) false s'
     end.

(** [$] without [re.MULTILINE]: the end of the string, or just before a
    newline that ends the string. *)
Definition at_eol (s : list ascii) : bool :=
  match s with
  | [] => true
  | [c] => Ascii.eqb c newline
  | _ => false
  end.

Fixpoint match_here (p : pattern) (bos : bool) (s : list ascii) : bool :=
  match p with
  | [] => true
  | Bol :: p' => bos && match_here p' bos s
  | Eol :: p' => at_eol s && match_here p' bos s
  | Rep cls lo hi :: p' => rep cls (match_here p') lo hi bos s
  end.

Fixpoint search_from (p : pattern) (bos : bool) (s : list ascii) : bool :=
  match_here p bos s
  || match s with
     | [] => false
     | _ :: s' => search_from p false s'
     end.

(** [re.search(p, s) is not None] *)
Definition search (p : pattern) (s : string) : bool :=
  search_from p true (list_ascii_of_string s).

End Re.

(** ** [numpy]: [where], [linspace], [diff] and [histogram] *)

Module Np.

Definition lt (x y : Q) : bool := negb (Qle_bool y x).
Definition le (x y : Q) : bool := Qle_bool x y.

Fixpoint where_from (i : nat) (mask : list bool) : list nat :=
  match mask with
  | [] => []
  | b :: mask' => (if b then [i] else []) ++ where_from (S i) mask'
  end.

(** [np.where(mask)[0]]: the positions at which [mask] holds. *)
Definition where_ (mask : list bool) : list nat := where_from 0 mask.

(** [np.linspace(start, stop, num)] *)
Definition linspace (start stop : Q) (num : nat) : list Q :=
  let step := ((stop - start) / inject_Z (Z.of_nat (num - 1)))%Q in
  map (fun i => Qred (start + inject_Z (Z.of_nat i) * step)%Q) (seq 0 num).

Fixpoint diff (l : list Z) : list Z :=
  match l with
  | a :: (b :: _) as l' => (b - a)%Z :: diff l'
  | _ => []
  end.

Definition count {A} (p : A -> bool) (l : list A) : Z :=
  Z.of_nat (List.length (filter p l)).

(** [np.sort(a).searchsorted(v, side)]: NaN sorts last, so the insertion
    point of [v] is the number of values below [v] (side [left]) or not
    above it (side [right]). *)
Definition searchsorted_left (a : list (option Q)) (v : Q) : Z :=
  count (fun x => match x with Some y => lt y v | None => false end) a.

Definition searchsorted_right (a : list (option Q)) (v : Q) : Z :=
  count (fun x => match x with Some y => le y v | None => false end) a.

(** [_search_sorted_inclusive(a, v)]: side [left] for all edges but the
    last, side [right] for the last. *)
Definition search_sorted_inclusive (a : list (option Q)) (v : list Q) : list Z :=
  map (searchsorted_left a) (removelast v)
  ++ map (searchsorted_right a) (skipn (List.length v - 1) v).

(** [np.histogram(a, bins=edges)] with an array of edges: the cumulative
    counts at the edges, then their differences. *)
Definition histogram (a : list (option Q)) (bins : list Q) : list Z * list Q :=
  (diff (search_sorted_inclusive a bins), bins).

End Np.

(** ** [pandas]: the questionnaire frame *)

Module Pd.

(** The block of columns ['q1':'q5'] of one row. *)
Record Grades : Type := mkGrades {
  q1 : option Q;
  q2 : option Q;
  q3 : option Q;
  q4 : option Q;
  q5 : option Q
}.

Record Row : Type := mkRow {
  age : option Q;
  gender : option string;
  email : string;
  grades : Grades
}.

(** A frame: the row labels, the columns [reset_index] has put in front,
    the questionnaire columns row by row, and the column [score] of
    dtype [UInt8] once it exists ([None] in a cell is [pd.NA]). *)
Record DataFrame : Type := mkDF {
  index : list Z;
  saved : list (string * list Z);
  body : list Row;
  score : option (list (option Z))
}.

Definition columns (df : DataFrame) : list string :=
  map fst (saved df)
  ++ ["age"; "gender"; "email"; "q1"; "q2"; "q3"; "q4"; "q5"]
  ++ match score df with Some _ => ["score"] | None => [] end.

Definition RangeIndex (n : nat) : list Z := map Z.of_nat (seq 0 n).

Definition cells (g : Grades) : list (option Q) :=
  [q1 g; q2 g; q3 g; q4 g; q5 g].

Definition gmap (f : option Q -> option Q) (g : Grades) : Grades :=
  mkGrades (f (q1 g)) (f (q2 g)) (f (q3 g)) (f (q4 g)) (f (q5 g)).

Definition isna {A} (c : option A) : bool :=
  match c with None => true | Some _ => false end.

Fixpoint present (l : list (option Q)) : list Q :=
  match l with
  | [] => []
  | Some x :: l' => x :: present l'
  | None :: l' => present l'
  end.

Definition total (l : list Q) : Q := fold_right Qplus (inject_Z 0) l.

(** The mean that skips NaN: NaN when nothing is present. *)
Definition nanmean (l : list (option Q)) : option Q :=
  match present l with
  | [] => None
  | xs => Some (Qred (total xs / inject_Z (Z.of_nat (List.length xs))))
  end.

(** [grades.mean(axis=1)] for one row. *)
Definition row_mean (g : Grades) : option Q := nanmean (cells g).

(** [grades.isna().any(axis=1)] and [grades.isnull().sum(axis=1)] for one row. *)
Definition any_na (g : Grades) : bool := existsb isna (cells g).
Definition na_count (g : Grades) : Z := Np.count isna (cells g).

(** [fillna(v)] on one cell; filling with NaN changes nothing. *)
Definition fillna (v : option Q) (c : option Q) : option Q :=
  match c with
  | None => v
  | Some _ => c
  end.

(** [df[mask]]: the entries at which the mask holds. *)
Fixpoint select {A} (mask : list bool) (l : list A) : list A :=
  match mask, l with
  | b :: mask', x :: l' => if b then x :: select mask' l' else select mask' l'
  | _, _ => []
  end.

Definition getitem_mask (df : DataFrame) (mask : list bool) : DataFrame :=
  {| index := select mask (index df);
     saved := map (fun c => (fst c, select mask (snd c))) (saved df);
     body := select mask (body df);
     score := option_map (select mask) (score df) |}.

Definition mem (name : string) (names : list string) : bool :=
  existsb (String.eqb name) names.

(** [df.reset_index()] with [drop=False] on an unnamed index: the old
    labels become a column in front, named [index], or [level_0] when a
    column [index] exists; [insert] refuses a name that is taken. *)
Definition reset_index (df : DataFrame) : result DataFrame :=
  let name := if mem "index" (columns df) then "level_0" else "index" in
  if mem name (columns df) then Raise ValueError
  else Ok {| index := RangeIndex (List.length (index df));
             saved := (name, index df) :: saved df;
             body := body df;
             score := score df |}.

(** [grades.T.fillna(means).T]: the columns of the transpose are the row
    labels; for each label [k] with mean [v], in order, the column [k] has
    its missing grades filled with [v]. *)
Definition fillna_T (labels : list Z) (means : list (option Q))
           (gs : list Grades) : list Grades :=
  map snd
    (fold_left
       (fun acc kv =>
          map (fun lg : Z * Grades =>
                 if Z.eqb (fst lg) (fst kv)
                 then (fst lg, gmap (fillna (snd kv)) (snd lg))
                 else lg) acc)
       (combine labels means) (combine labels gs)).

(** [df.loc[:, 'q1':'q5'] = gs], row by row. *)
Definition set_grades (rows : list Row) (gs : list Grades) : list Row :=
  map (fun rg : Row * Grades =>
         mkRow (age (fst rg)) (gender (fst rg)) (email (fst rg)) (snd rg))
      (combine rows gs).

(** [col.loc[keys] = np.nan]: by label; a label that is absent raises. *)
Definition loc_set_nan (labels keys : list Z) (col : list (option Z))
  : result (list (option Z)) :=
  if forallb (fun k => existsb (Z.eqb k) labels) keys
  then Ok (map (fun lc : Z * option Z =>
                  if existsb (Z.eqb (fst lc)) keys then None else snd lc)
               (combine labels col))
  else Raise KeyError.

(** [pd.Series(values, dtype="UInt8")]: NaN becomes [pd.NA]; a value
    outside 0..255 cannot be cast. *)
Definition to_UInt8 (values : list (option Z)) : result (list (option Z)) :=
  if forallb (fun v => match v with
                       | Some z => (0 <=? z)%Z && (z <=? 255)%Z
                       | None => true
                       end) values
  then Ok values
  else Raise TypeError.

(** [df['score'] = series] where [series] has the default index: the
    cell of a row is the value at its label, [pd.NA] without one. *)
Definition align (labels : list Z) (values : list (option Z)) : list (option Z) :=
  map (fun l => if (0 <=? l)%Z && (l <? Z.of_nat (List.length values))%Z
                then nth (Z.to_nat l) values None
                else None) labels.

(** Sorted distinct values, as the group keys are factorized. *)
Fixpoint insert_unique (x : string) (l : list string) : list string :=
  match l with
  | [] => [x]
  | y :: l' =>
      match String.compare x y with
      | Lt => x :: l
      | Eq => l
      | Gt => y :: insert_unique x l'
      end
  end.

Definition sorted_unique (l : list string) : list string :=
  fold_right insert_unique [] l.

Fixpoint somes {A} (l : list (option A)) : list A :=
  match l with
  | [] => []
  | Some x :: l' => x :: somes l'
  | None :: l' => somes l'
  end.

(** The group of a row under the groupers of the levels [gender] (no
    mapper) and [age] (the mapper [by_age], applied to the age of the row);
    a row without gender has no group ([dropna=True]). *)
Definition group_of (by_age : option Q -> bool) (r : Row) : option (string * bool) :=
  match gender r with
  | Some g => Some (g, by_age (age r))
  | None => None
  end.

Definition in_group (by_age : option Q -> bool) (k : string * bool) (r : Row) : bool :=
  match group_of by_age r with
  | Some k' => String.eqb (fst k) (fst k') && Bool.eqb (snd k) (snd k')
  | None => false
  end.

(** [.mean()] of a group, restricted to ['q1':'q5']. *)
Definition group_mean (rows : list Row) : Grades :=
  mkGrades (nanmean (map (fun r => q1 (grades r)) rows))
           (nanmean (map (fun r => q2 (grades r)) rows))
           (nanmean (map (fun r => q3 (grades r)) rows))
           (nanmean (map (fun r => q4 (grades r)) rows))
           (nanmean (map (fun r => q5 (grades r)) rows)).

(** The row of the result for the key [k]: present when the group has
    members. *)
Definition group_row (by_age : option Q -> bool) (rows : list Row)
           (k : string * bool) : list ((string * bool) * Grades) :=
  match filter (in_group by_age k) rows with
  | [] => []
  | members => [(k, group_mean members)]
  end.

(** [groupby([None, by_age], level=['gender', 'age']).mean()]: the keys
    are the sorted genders crossed with [False < True]; only the
    combinations that some row has are kept. *)
Definition groupby_mean (by_age : option Q -> bool) (rows : list Row)
  : list ((string * bool) * Grades) :=
  flat_map
    (fun g => flat_map (fun b => group_row by_age rows (g, b)) [false; true])
    (sorted_unique (somes (map gender rows))).

End Pd.

(** ** The class [QuestionnaireAnalysis] *)

(** What a path leads to. *)
Inductive node : Type :=
| File (content : string)
| Dir.

Definition filesystem : Type := string -> option node.

(** [pathlib.Path(p).is_file()] *)
Definition is_file (fs : filesystem) (p : string) : bool :=
  match fs p with
  | Some (File _) => true
  | _ => false
  end.

(** The attributes of an instance; [None] for one that is not set yet. *)
Record QuestionnaireAnalysis : Type := mkSelf {
  data_fname : string;
  data : option Pd.DataFrame;
  maximal_nans_per_sub : option Z
}.

Definition M (A : Type) : Type :=
  QuestionnaireAnalysis -> result (A * QuestionnaireAnalysis).

Definition ret {A} (a : A) : M A := fun self => Ok (a, self).

Definition bind {A B} (c : M A) (k : A -> M B) : M B :=
  fun self =>
    match c self with
    | inl e => inl e
    | inr (a, self') => k a self'
    end.

Definition lift {A} (r : result A) : M A :=
  fun self =>
    match r with
    | inl e => inl e
    | inr a => Ok (a, self)
    end.

Notation "x <- c ;; k" := (bind c (fun x => k))
  (at level 61, c at next level, right associativity).
Notation "c ;;; k" := (bind c (fun _ => k))
  (at level 61, right associativity).

(** [self.data]; the attribute is missing before [read_data]. *)
Definition self_data : M Pd.DataFrame :=
  fun self =>
    match data self with
    | Some df => Ok (df, self)
    | None => Raise AttributeError
    end.

Definition set_self_data (df : Pd.DataFrame) : M unit :=
  fun self => Ok (tt, mkSelf (data_fname self) (Some df) (maximal_nans_per_sub self)).

Definition set_maximal_nans_per_sub (n : Z) : M unit :=
  fun self => Ok (tt, mkSelf (data_fname self) (data self) (Some n)).

Definition __init__ (fs : filesystem) (fname : string) : result QuestionnaireAnalysis :=
  if is_file fs fname
  then Ok (mkSelf fname None None)
  else Raise ValueError.

Section Loading.

(** [pd.read_json] is the loader of the library, not of this repository. *)
Variable read_json : filesystem -> string -> result Pd.DataFrame.

Definition read_data (fs : filesystem) : M unit :=
  fun self =>
    match read_json fs (data_fname self) with
    | inl e => inl e
    | inr df => set_self_data df self
    end.

End Loading.

(** The methods, statement by statement. *)

Definition show_age_distrib : M (list Z * list Q) :=
  df <- self_data ;;
  let bins := Np.linspace (inject_Z 0) (inject_Z 100) 11 in
  let hist := Np.histogram (map Pd.age (Pd.body df)) bins in
  ret hist.

(** ['^[a-z0-9]+[\._]?[a-z0-9]+[@]\w+[.]\w{1,6}$'] *)
Definition regex : Re.pattern :=
  [ Re.Bol;
    Re.Rep Re.lower_alnum 1 None;
    Re.Rep (Re.one_of ["."; "_"]%char) 0 (Some 1);
    Re.Rep Re.lower_alnum 1 None;
    Re.Rep (Re.one_of ["@"]%char) 1 (Some 1);
    Re.Rep Re.word 1 None;
    Re.Rep (Re.one_of ["."]%char) 1 (Some 1);
    Re.Rep Re.word 1 (Some 6);
    Re.Eol ].

(** [col.str.contains(p)] *)
Definition str_contains (p : Re.pattern) (col : list string) : list bool :=
  map (Re.search p) col.

Definition remove_rows_without_mail : M Pd.DataFrame :=
  df <- self_data ;;
  lift (Pd.reset_index
          (Pd.getitem_mask df (str_contains regex (map Pd.email (Pd.body df))))).

(** The frame that is returned is [self.data] itself, with its grades
    replaced. *)
Definition fill_na_with_mean : M (Pd.DataFrame * list nat) :=
  df <- self_data ;;
  let grades := map Pd.grades (Pd.body df) in
  let na_index := Np.where_ (map Pd.any_na grades) in
  let grades := Pd.fillna_T (Pd.index df) (map Pd.row_mean grades) grades in
  let df := Pd.mkDF (Pd.index df) (Pd.saved df)
                    (Pd.set_grades (Pd.body df) grades) (Pd.score df) in
  set_self_data df ;;;
  ret (df, na_index).

(** [floored] is the column [score] while it is a float column: the
    floored means, then NaN at the labels of [na_index]; the last assignment
    aligns the [UInt8] series, which has the default index, on the labels
    of the frame. *)
Definition score_subjects (maximal : Z) : M Pd.DataFrame :=
  df <- self_data ;;
  let grades := map Pd.grades (Pd.body df) in
  set_maximal_nans_per_sub maximal ;;;
  let na_index :=
    Np.where_ (map (fun g => (maximal <? Pd.na_count g)%Z) grades) in
  let floored := map (fun g => option_map Qfloor (Pd.row_mean g)) grades in
  floored <- lift (Pd.loc_set_nan (Pd.index df) (map Z.of_nat na_index) floored) ;;
  values <- lift (Pd.to_UInt8 floored) ;;
  let df := Pd.mkDF (Pd.index df) (Pd.saved df) (Pd.body df)
                    (Some (Pd.align (Pd.index df) values)) in
  set_self_data df ;;;
  ret df.

(** [lambda age: age > 40]; a comparison with NaN is false. *)
Definition over_40 (age : option Q) : bool :=
  match age with
  | Some a => Np.lt (inject_Z 40) a
  | None => false
  end.

Definition correlate_gender_age : M (list ((string * bool) * Pd.Grades)) :=
  df <- self_data ;;
  let grouped := Pd.groupby_mean over_40 (Pd.body df) in
  ret grouped.

(** ** Vocabulary of the statements *)

(** One or more characters of a class. *)
Definition one_or_more (cls : ascii -> bool) (s : list ascii) : Prop :=
  s <> [] /\ forallb cls s = true.

(** The email pattern in the words of the specification: lowercase
    alphanumerics, an optional single [.] or [_], lowercase alphanumerics,
    [@], word characters, [.], and one to six word characters, from the
    first character of the string to the last. *)
Definition spec_email_pattern (s : list ascii) : Prop :=
  exists local1 sep local2 domain suffix,
    s = local1 ++ sep ++ local2 ++ "@"%char :: domain ++ "."%char :: suffix
    /\ one_or_more Re.lower_alnum local1
    /\ (sep = [] \/ sep = ["."%char] \/ sep = ["_"%char])
    /\ one_or_more Re.lower_alnum local2
    /\ one_or_more Re.word domain
    /\ one_or_more Re.word suffix
    /\ List.length suffix <= 6.

(** A frame has one label per row. *)
Definition labelled (df : Pd.DataFrame) : Prop :=
  List.length (Pd.index df) = List.length (Pd.body df).

(** A frame carries the default index: the label of a row is its position. *)
Definition default_index (df : Pd.DataFrame) : Prop :=
  Pd.index df = Pd.RangeIndex (List.length (Pd.body df)).

(** What the filter accepts: the pattern, or the pattern followed by one
    final newline. *)
Definition accepted (e : string) : Prop :=
  spec_email_pattern (list_ascii_of_string e)
  \/ exists s, list_ascii_of_string e = s ++ [Re.newline] /\ spec_email_pattern s.


(** The bound of a quantifier. *)
Definition within (hi : option nat) (n : nat) : Prop :=
  match hi with
  | None => True
  | Some h => n <= h
  end.

Definition is_nil {A} (l : list A) : bool :=
  match l with [] => true | _ => false end.

(** The test of the filter on one row. *)
Definition keeps (r : Pd.Row) : bool := Re.search regex (Pd.email r).

(** The grades of a row labelled [l] once the fills of [items] are done. *)
Definition fills (items : list (Z * option Q)) (l : Z) (g : Pd.Grades) : Pd.Grades :=
  fold_left
    (fun g kv => if Z.eqb l (fst kv) then Pd.gmap (Pd.fillna (snd kv)) g else g)
    items g.

(** A row whose missing grades hold the mean of its own row. *)
Definition impute (r : Pd.Row) : Pd.Row :=
  Pd.mkRow (Pd.age r) (Pd.gender r) (Pd.email r)
           (Pd.gmap (Pd.fillna (Pd.row_mean (Pd.grades r))) (Pd.grades r)).

(** The arithmetic mean of the values that are present. *)
Definition mean_of_present (l : list (option Q)) : Q :=
  (Pd.total (Pd.present l) / inject_Z (Z.of_nat (List.length (Pd.present l))))%Q.

(** The score of a row with grades [g] under the threshold [m]. *)
Definition score_of (m : Z) (g : Pd.Grades) : option Z :=
  if (m <? Pd.na_count g)%Z then None else option_map Qfloor (Pd.row_mean g).

(** A cell that the dtype [UInt8] can hold. *)
Definition fits_UInt8 (c : option Z) : bool :=
  match c with
  | Some z => (0 <=? z)%Z && (z <=? 255)%Z
  | None => true
  end.

(** An age that is present and lies in [lo, hi), or in [lo, hi] for the
    closed bin. *)
Definition age_between (lo hi : Q) (closed : bool) (a : option Q) : bool :=
  match a with
  | Some x => Np.le lo x && (if closed then Np.le x hi else Np.lt x hi)
  | None => false
  end.

Definition edge (i : nat) : Q := inject_Z (10 * Z.of_nat i).




(** ** Sample tables *)

Definition mark (z : Z) : option Q := Some (inject_Z z).
Definition na : option Q := None.

Definition full_marks : Pd.Grades :=
  Pd.mkGrades (mark 81) (mark 82) (mark 83) (mark 84) (mark 85).

Definition participant (e : string) : Pd.Row :=
  Pd.mkRow (Some (inject_Z 30)) (Some "female") e full_marks.

Definition blank : Pd.Row :=
  Pd.mkRow (Some (inject_Z 30)) (Some "female") "ab@c.de"
           (Pd.mkGrades na na na na na).

Definition loaded (rows : list Pd.Row) : QuestionnaireAnalysis :=
  mkSelf "data.json"
         (Some (Pd.mkDF (Pd.RangeIndex (List.length rows)) [] rows None)) None.


(** A disk with one file and one directory. *)
Definition disk : filesystem :=
  fun p =>
    if String.eqb p "data.json" then Some (File "not json")
    else if String.eqb p "tests" then Some Dir
    else None.

(** ** Vocabulary of the further properties *)

(** The object that holds [df] in place of the table of [self]. *)
Definition holding (self : QuestionnaireAnalysis) (df : Pd.DataFrame)
  : QuestionnaireAnalysis :=
  mkSelf (data_fname self) (Some df) (maximal_nans_per_sub self).

(** Every column of a frame has one cell per row. *)
Definition rectangular (df : Pd.DataFrame) : Prop :=
  List.length (Pd.index df) = List.length (Pd.body df)
  /\ Forall (fun c => List.length (snd c) = List.length (Pd.body df)) (Pd.saved df)
  /\ match Pd.score df with
     | Some col => List.length col = List.length (Pd.body df)
     | None => True
     end.

(** The number of missing values. *)
Definition missing (l : list (option Q)) : nat :=
  List.length (filter Pd.isna l).

(** A cell that is missing or lies in [lo, hi]. *)
Definition cell_within (lo hi : Q) (c : option Q) : bool :=
  match c with
  | Some x => Np.le lo x && Np.le x hi
  | None => true
  end.

(** Every grade of the table is missing or lies in [lo, hi]. *)
Definition grades_within (lo hi : Q) (rows : list Pd.Row) : bool :=
  forallb (fun r => forallb (cell_within lo hi) (Pd.cells (Pd.grades r))) rows.




(** * Properties *)

(** ** The regular expression *)

Section Regex.

Import Re.

Lemma rep_spec cls k s :
  forall lo hi bos,
    rep cls k lo hi bos s = true <->
    exists pre suf,
      s = pre ++ suf /\ forallb cls pre = true
      /\ lo <= List.length pre /\ within hi (List.length pre)
      /\ k (bos && is_nil pre) suf = true.
Proof.
  induction s as [|c s IH]; intros lo hi bos.
  - simpl. rewrite orb_false_r. split.
    + destruct lo; [|discriminate]. intros H.
      exists [], []. simpl. rewrite andb_true_r.
      repeat split; auto. destruct hi; simpl; lia.
    + intros (pre & suf & E & _ & Hlo & _ & Hk).
      symmetry in E. apply app_eq_nil in E. destruct E; subst.
      simpl in *. rewrite andb_true_r in Hk.
      destruct lo; [assumption | lia].
  - simpl. rewrite orb_true_iff, !andb_true_iff, IH. split.
    + intros [H | ((Hc & Hm) & pre & suf & E & Hall & Hlo & Hhi & Hk)].
      * destruct lo; [|discriminate].
        exists [], (c :: s). simpl. rewrite andb_true_r.
        repeat split; auto. destruct hi; simpl; lia.
      * exists (c :: pre), suf. simpl. rewrite Hc, Hall, andb_false_r.
        subst s. repeat split; auto; try lia.
        destruct hi as [[|h]|]; simpl in *; try discriminate; lia.
    + intros (pre & suf & E & Hall & Hlo & Hhi & Hk).
      destruct pre as [|c' pre]; simpl in *.
      * left. rewrite andb_true_r in Hk. subst suf.
        destruct lo; [assumption | lia].
      * right. injection E as -> ->.
        apply andb_true_iff in Hall as [Hc Hall].
        rewrite andb_false_r in Hk.
        split; [split; [assumption|]|].
        -- destruct hi as [[|h]|]; simpl in *; auto; lia.
        -- exists pre, suf. repeat split; auto; try lia.
           destruct hi as [[|h]|]; simpl in *; auto; lia.
Qed.

Lemma search_from_bol p s : search_from (Bol :: p) false s = false.
Proof. induction s; simpl; auto. Qed.

(** With [^] in front, [search] only matches at the first character. *)
Lemma search_anchored p s :
  search (Bol :: p) s = match_here (Bol :: p) true (list_ascii_of_string s).
Proof.
  unfold search.
  destruct (list_ascii_of_string s); simpl;
    rewrite ?search_from_bol, orb_false_r; reflexivity.
Qed.

Lemma at_eol_spec s : at_eol s = true <-> s = [] \/ s = [newline].
Proof.
  destruct s as [|c [|d s]]; simpl; split; auto; try discriminate.
  - intros H. apply Ascii.eqb_eq in H. subst. auto.
  - intros [H | H]; [discriminate | injection H as ->; apply Ascii.eqb_refl].
  - intros [H | H]; discriminate.
Qed.

Lemma exactly_one c s :
  forallb (one_of [c]) s = true -> 1 <= List.length s <= 1 -> s = [c].
Proof.
  destruct s as [|d [|e s]]; simpl; try lia.
  unfold one_of. simpl. rewrite !orb_false_r, andb_true_r.
  intros H _. apply Ascii.eqb_eq in H. congruence.
Qed.

Lemma at_most_one_of c d s :
  forallb (one_of [c; d]) s = true -> List.length s <= 1 ->
  s = [] \/ s = [c] \/ s = [d].
Proof.
  destruct s as [|e [|f s]]; simpl; try lia; auto.
  unfold one_of. simpl. rewrite !orb_false_r, andb_true_r, orb_true_iff.
  intros [H | H] _; apply Ascii.eqb_eq in H; subst; auto.
Qed.

Lemma one_or_more_length cls s :
  one_or_more cls s <-> forallb cls s = true /\ 1 <= List.length s.
Proof.
  unfold one_or_more. destruct s; simpl; split; intros [H1 H2];
    split; auto; try lia; congruence.
Qed.

(** The pattern of the source, followed to a [$]-position. *)
Lemma regex_match s :
  match_here regex true s = true <->
  exists e tl, s = e ++ tl /\ spec_email_pattern e /\ (tl = [] \/ tl = [newline]).
Proof.
  unfold regex. cbn [match_here]. rewrite andb_true_l. split.
  - intros H.
    apply rep_spec in H as (l1 & s1 & -> & A1 & L1 & _ & H).
    apply rep_spec in H as (sp & s2 & -> & A2 & _ & L2 & H).
    apply rep_spec in H as (l2 & s3 & -> & A3 & L3 & _ & H).
    apply rep_spec in H as (at_ & s4 & -> & A4 & L4 & U4 & H).
    apply rep_spec in H as (dm & s5 & -> & A5 & L5 & _ & H).
    apply rep_spec in H as (dt & s6 & -> & A6 & L6 & U6 & H).
    apply rep_spec in H as (sf & s7 & -> & A7 & L7 & U7 & H).
    simpl in U4, U6, U7, L2.
    apply andb_true_iff in H as [H _]. apply at_eol_spec in H.
    apply exactly_one in A4; [|lia]. apply exactly_one in A6; [|lia].
    apply at_most_one_of in A2; [|lia]. subst at_ dt.
    exists (l1 ++ sp ++ l2 ++ "@"%char :: dm ++ "."%char :: sf), s7.
    split; [|split; [|assumption]].
    + repeat (rewrite <- app_assoc; simpl). reflexivity.
    + exists l1, sp, l2, dm, sf.
      rewrite !one_or_more_length. repeat split; auto.
  - intros (e & tl & -> & (l1 & sp & l2 & dm & sf & -> & H1 & Hs & H2 & H3 & H4 & H5) & Ht).
    apply one_or_more_length in H1 as [A1 L1], H2 as [A2 L2],
        H3 as [A3 L3], H4 as [A4 L4].
    assert (As : forallb (one_of ["."%char; "_"%char]) sp = true)
      by (destruct Hs as [-> | [-> | ->]]; reflexivity).
    assert (Ls : List.length sp <= 1)
      by (destruct Hs as [-> | [-> | ->]]; simpl; lia).
    apply rep_spec. exists l1, (sp ++ l2 ++ "@"%char :: dm ++ "."%char :: sf ++ tl).
    split; [repeat (rewrite <- app_assoc; simpl); reflexivity|].
    repeat split; auto.
    apply rep_spec. exists sp, (l2 ++ "@"%char :: dm ++ "."%char :: sf ++ tl).
    repeat split; auto; try lia.
    apply rep_spec. exists l2, ("@"%char :: dm ++ "."%char :: sf ++ tl).
    repeat split; auto.
    apply rep_spec. exists ["@"%char], (dm ++ "."%char :: sf ++ tl).
    repeat split; auto; try (simpl; lia).
    apply rep_spec. exists dm, ("."%char :: sf ++ tl).
    repeat split; auto.
    apply rep_spec. exists ["."%char], (sf ++ tl).
    repeat split; auto; try (simpl; lia).
    apply rep_spec. exists sf, tl.
    repeat split; auto; try (simpl; lia).
    rewrite andb_true_r. apply at_eol_spec. assumption.
Qed.

End Regex.

(** ** Boolean indexing and [reset_index] *)

Section Frames.

Import Pd.

Lemma select_map_filter {A} (p : A -> bool) (l : list A) :
  select (map p l) l = filter p l.
Proof.
  induction l as [|x l IH]; simpl; [reflexivity|].
  destruct (p x); rewrite IH; reflexivity.
Qed.

Lemma select_length {A B} (mask : list bool) :
  forall (l : list A) (l' : list B),
    List.length l = List.length l' ->
    List.length (select mask l) = List.length (select mask l').
Proof.
  induction mask as [|b mask IH]; intros [|x l] [|y l'] E; simpl in *;
    try reflexivity; try discriminate.
  injection E as E. destruct b; simpl; auto.
Qed.

Lemma mem_In name names : mem name names = true <-> In name names.
Proof.
  unfold mem. rewrite existsb_exists. split.
  - intros (x & Hx & E). apply String.eqb_eq in E. subst. assumption.
  - intros H. exists name. split; [assumption | apply String.eqb_refl].
Qed.

Lemma columns_getitem_mask df mask :
  columns (getitem_mask df mask) = columns df.
Proof.
  unfold columns, getitem_mask. simpl. rewrite map_map. simpl.
  destruct (score df); reflexivity.
Qed.

(** [reset_index] returns unless both names are taken. *)
Lemma reset_index_returns df :
  mem "level_0" (columns df) = false ->
  exists name,
    reset_index df =
    Ok (mkDF (RangeIndex (List.length (index df)))
             ((name, index df) :: saved df) (body df) (score df)).
Proof.
  intros H. unfold reset_index.
  destruct (mem "index" (columns df)) eqn:E.
  - rewrite H. eauto.
  - rewrite E. eauto.
Qed.

End Frames.

Section EmailFilter.

Import Pd.

Lemma remove_rows_without_mail_unfold self df :
  data self = Some df ->
  remove_rows_without_mail self =
  match reset_index (getitem_mask df (map keeps (body df))) with
  | inl e => inl e
  | inr out => Ok (out, self)
  end.
Proof.
  intros H. unfold remove_rows_without_mail, bind, self_data, lift.
  rewrite H. unfold Ok, str_contains. rewrite map_map. reflexivity.
Qed.

Lemma remove_rows_without_mail_returns self df :
  data self = Some df ->
  mem "level_0" (columns df) = false ->
  exists name,
    remove_rows_without_mail self =
    Ok (mkDF (RangeIndex (List.length (select (map keeps (body df)) (index df))))
             ((name, select (map keeps (body df)) (index df))
                :: map (fun c => (fst c, select (map keeps (body df)) (snd c)))
                       (saved df))
             (filter keeps (body df))
             (option_map (select (map keeps (body df))) (score df)),
        self).
Proof.
  intros Hd Hc. rewrite (remove_rows_without_mail_unfold _ Hd).
  destruct (reset_index_returns (getitem_mask df (map keeps (body df))))
    as (name & E).
  - rewrite columns_getitem_mask. assumption.
  - rewrite E. exists name. simpl. rewrite select_map_filter. reflexivity.
Qed.

Lemma search_regex_accepted e : Re.search regex e = true <-> accepted e.
Proof.
  unfold regex at 1. rewrite search_anchored. fold regex.
  rewrite regex_match. unfold accepted. split.
  - intros (s & tl & E & Hs & [-> | ->]).
    + rewrite app_nil_r in E. rewrite E. left. assumption.
    + right. exists s. auto.
  - intros [H | (s & E & H)].
    + exists (list_ascii_of_string e), []. rewrite app_nil_r. auto.
    + exists s, [Re.newline]. auto.
Qed.



Lemma keeps_accepted r : keeps r = true <-> accepted (email r).
Proof. apply search_regex_accepted. Qed.




(** C8.  The filter returns a table whose index is 0..N-1 for its N
    rows, and leaves the object, hence the table it holds with its rows,
    columns and index, as it was. *)
Theorem remove_rows_without_mail_new_table self df :
  data self = Some df ->
  labelled df ->
  mem "level_0" (columns df) = false ->
  exists out self',
    remove_rows_without_mail self = Ok (out, self')
    /\ index out = RangeIndex (List.length (body out))
    /\ self' = self
    /\ data self' = Some df.
Proof.
  intros Hd Hl Hc.
  destruct (remove_rows_without_mail_returns _ Hd Hc) as (name & E).
  eexists _, self. split; [exact E|]. simpl.
  split; [|split; [reflexivity | assumption]].
  f_equal. rewrite <- select_map_filter. apply select_length. exact Hl.
Qed.

Lemma remove_rows_without_mail_new_table_witness :
  let rows := [participant "John@example.com"; participant "john.doe@example.com"] in
  exists out self',
    remove_rows_without_mail (loaded rows) = Ok (out, self')
    /\ index out = RangeIndex (List.length (body out))
    /\ self' = loaded rows
    /\ data self' = Some (mkDF (RangeIndex 2) [] rows None).
Proof.
  exact (@remove_rows_without_mail_new_table
           (loaded [participant "John@example.com";
                    participant "john.doe@example.com"])
           _ eq_refl eq_refl eq_refl).
Defined.

(** Whenever the filter returns, its result has one column more than the
    table it was given: no table is its own filtering. *)
Lemma remove_rows_without_mail_adds_column self df out self' :
  data self = Some df ->
  remove_rows_without_mail self = Ok (out, self') ->
  List.length (saved out) = S (List.length (saved df)) /\ out <> df.
Proof.
  intros Hd H. rewrite (remove_rows_without_mail_unfold _ Hd) in H.
  unfold reset_index in H.
  destruct (mem _ (columns (getitem_mask df (map keeps (body df)))));
    [discriminate|].
  unfold Ok in H.
  assert (E : List.length (saved out) = S (List.length (saved df))).
  { injection H as <- _. simpl. rewrite length_map. reflexivity. }
  split; [exact E|]. intros ->. lia.
Qed.

(** C3 at a table of one accepted row.  The first filtering returns the
    row under the columns [index, age, ...]; filtering that table again
    returns the same row and the same index under the columns
    [level_0, index, age, ...], which is another table; filtering once more
    raises [ValueError]. *)
Theorem remove_rows_without_mail_twice :
  let rows := [participant "john.doe@example.com"] in
  let holding df := mkSelf "data.json" (Some df) None in
  exists once twice,
    remove_rows_without_mail (loaded rows) = Ok (once, loaded rows)
    /\ remove_rows_without_mail (holding once) = Ok (twice, holding once)
    /\ body twice = body once
    /\ index twice = index once
    /\ saved once = [("index", [0%Z])]
    /\ saved twice = [("level_0", [0%Z]); ("index", [0%Z])]
    /\ twice <> once
    /\ remove_rows_without_mail (holding twice) = Raise ValueError.
Proof.
  intros rows holding. eexists _, _.
  split; [reflexivity|]. split; [reflexivity|].
  repeat split; try reflexivity.
  intros H. discriminate H.
Qed.

End EmailFilter.

(** ** [np.where] *)

Section Where.

Lemma where_from_spec mask :
  forall k i,
    In i (Np.where_from k mask) <-> k <= i /\ nth (i - k) mask false = true.
Proof.
  induction mask as [|b mask IH]; intros k i; simpl.
  - split; [tauto|]. intros [_ H]. destruct (i - k); discriminate.
  - rewrite in_app_iff, IH. split.
    + intros [H | [H1 H2]].
      * destruct b; simpl in H; [|tauto]. destruct H as [<- | []].
        rewrite Nat.sub_diag. auto.
      * split; [lia|]. replace (i - k) with (S (i - S k)) by lia. exact H2.
    + intros [H1 H2]. destruct (i - k) as [|n] eqn:E.
      * left. subst b. simpl. left. lia.
      * right. split; [lia|]. replace (i - S k) with n by lia. exact H2.
Qed.

Lemma where_spec mask i :
  In i (Np.where_ mask) <-> nth i mask false = true.
Proof.
  unfold Np.where_. rewrite where_from_spec, Nat.sub_0_r.
  split; [tauto | intros H; split; [lia | exact H]].
Qed.

Lemma where_from_sorted mask :
  forall k, StronglySorted lt (Np.where_from k mask).
Proof.
  induction mask as [|b mask IH]; intros k; simpl; [constructor|].
  destruct b; simpl; [|apply IH].
  constructor; [apply IH|].
  apply Forall_forall. intros i H. apply where_from_spec in H. lia.
Qed.

Lemma where_sorted mask : StronglySorted lt (Np.where_ mask).
Proof. apply where_from_sorted. Qed.


Lemma nth_map_error {A} (p : A -> bool) (l : list A) i :
  nth i (map p l) false = true <->
  exists x, nth_error l i = Some x /\ p x = true.
Proof.
  revert i. induction l as [|y l IH]; intros [|i]; simpl.
  - split; [discriminate | intros (x & H & _); discriminate].
  - split; [discriminate | intros (x & H & _); discriminate].
  - split; [eauto | intros (x & H & Hp); congruence].
  - apply IH.
Qed.

End Where.

(** ** Imputation *)

Section Imputation.

Import Pd.

Lemma fold_fills items :
  forall acc : list (Z * Grades),
    fold_left
      (fun acc kv =>
         map (fun lg : Z * Grades =>
                if Z.eqb (fst lg) (fst kv)
                then (fst lg, gmap (fillna (snd kv)) (snd lg))
                else lg) acc)
      items acc
    = map (fun lg => (fst lg, fills items (fst lg) (snd lg))) acc.
Proof.
  induction items as [|kv items IH]; intros acc; simpl.
  - rewrite <- (map_id acc) at 1. apply map_ext. intros [l g]. reflexivity.
  - rewrite IH, map_map. apply map_ext. intros [l g]. simpl.
    destruct (Z.eqb l (fst kv)); reflexivity.
Qed.

Lemma fills_notin items l g :
  ~ In l (map fst items) -> fills items l g = g.
Proof.
  revert g. induction items as [|kv items IH]; intros g H; simpl in *.
  - reflexivity.
  - destruct (Z.eqb_spec l (fst kv)) as [E | E].
    + exfalso. apply H. left. congruence.
    + apply IH. tauto.
Qed.

Lemma fills_unique items l m g :
  NoDup (map fst items) -> In (l, m) items ->
  fills items l g = gmap (fillna m) g.
Proof.
  revert g. induction items as [|kv items IH]; intros g Hn Hin; simpl in *.
  - contradiction.
  - inversion Hn as [|? ? Hnot Hn']; subst.
    destruct Hin as [-> | Hin]; simpl.
    + rewrite Z.eqb_refl. apply fills_notin. exact Hnot.
    + destruct (Z.eqb_spec l (fst kv)) as [E | E].
      * exfalso. apply Hnot. rewrite <- E.
        change l with (fst (l, m)). apply in_map. exact Hin.
      * apply IH; assumption.
Qed.

Lemma in_combine_map {A B C} (f : B -> C) (l : list A) :
  forall (l' : list B) a b,
    In (a, b) (combine l l') -> In (a, f b) (combine l (map f l')).
Proof.
  induction l as [|x l IH]; intros [|y l'] a b H; simpl in *; try contradiction.
  destruct H as [H | H]; [left; congruence | right; auto].
Qed.

Lemma NoDup_fst_combine {A B} (l : list A) :
  forall l' : list B, NoDup l -> NoDup (map fst (combine l l')).
Proof.
  induction l as [|x l IH]; intros [|y l'] H; simpl; try constructor.
  - inversion H as [|? ? Hnot Hn]; subst. intros Hin. apply Hnot.
    apply in_map_iff in Hin as ([a b] & <- & Hin).
    apply in_combine_l in Hin. exact Hin.
  - inversion H; subst. auto.
Qed.

Lemma map_snd_combine {A B} (l : list A) :
  forall l' : list B,
    List.length l = List.length l' -> map snd (combine l l') = l'.
Proof.
  induction l as [|x l IH]; intros [|y l'] E; simpl in *;
    try reflexivity; try discriminate.
  rewrite IH; [reflexivity | lia].
Qed.

Lemma combine_map_self {A B} (f : A -> B) (l : list A) :
  combine l (map f l) = map (fun x => (x, f x)) l.
Proof. induction l; simpl; congruence. Qed.

(** With distinct labels the fills are row by row. *)
Lemma fillna_T_rowwise labels gs :
  NoDup labels -> List.length labels = List.length gs ->
  fillna_T labels (map row_mean gs) gs
  = map (fun g => gmap (fillna (row_mean g)) g) gs.
Proof.
  intros Hn Hl. unfold fillna_T. rewrite fold_fills, map_map. simpl.
  replace (map (fun g => gmap (fillna (row_mean g)) g) gs)
    with (map (fun g => gmap (fillna (row_mean g)) g)
              (map snd (combine labels gs)))
    by (rewrite map_snd_combine; auto).
  rewrite map_map.
  apply map_ext_in. intros [l g] Hin. simpl.
  apply fills_unique.
  - apply NoDup_fst_combine. exact Hn.
  - apply in_combine_map. exact Hin.
Qed.

Lemma length_RangeIndex n : List.length (RangeIndex n) = n.
Proof. unfold RangeIndex. rewrite length_map, length_seq. reflexivity. Qed.

Lemma NoDup_RangeIndex n : NoDup (RangeIndex n).
Proof.
  unfold RangeIndex. generalize 0.
  induction n as [|n IH]; intros k; simpl; constructor; [|apply IH].
  rewrite in_map_iff. intros (j & E & Hj).
  apply in_seq in Hj. lia.
Qed.

Lemma default_index_labelled df : default_index df -> labelled df.
Proof. unfold default_index, labelled. intros ->. apply length_RangeIndex. Qed.

Lemma fill_na_with_mean_unfold self df :
  data self = Some df ->
  fill_na_with_mean self =
  let df' :=
    mkDF (index df) (saved df)
         (set_grades (body df)
            (fillna_T (index df) (map row_mean (map grades (body df)))
                      (map grades (body df))))
         (score df) in
  Ok ((df', Np.where_ (map any_na (map grades (body df)))),
      mkSelf (data_fname self) (Some df') (maximal_nans_per_sub self)).
Proof.
  intros H. unfold fill_na_with_mean, bind, self_data. rewrite H. reflexivity.
Qed.

Lemma fill_na_with_mean_rowwise self df :
  data self = Some df ->
  default_index df ->
  fill_na_with_mean self =
  let df' := mkDF (index df) (saved df) (map impute (body df)) (score df) in
  Ok ((df', Np.where_ (map any_na (map grades (body df)))),
      mkSelf (data_fname self) (Some df') (maximal_nans_per_sub self)).
Proof.
  intros Hd Hi. rewrite (fill_na_with_mean_unfold _ Hd). cbv zeta.
  rewrite fillna_T_rowwise.
  - unfold set_grades. rewrite map_map, combine_map_self, map_map. reflexivity.
  - rewrite Hi. apply NoDup_RangeIndex.
  - rewrite length_map. apply default_index_labelled. exact Hi.
Qed.


Lemma cells_gmap f g : cells (gmap f g) = map f (cells g).
Proof. reflexivity. Qed.

Lemma present_nonempty l x : In (Some x) l -> present l <> [].
Proof.
  induction l as [|[y|] l IH]; simpl; intros H.
  - contradiction.
  - discriminate.
  - destruct H as [H | H]; [discriminate | auto].
Qed.

Lemma nanmean_Some l x :
  In (Some x) l ->
  exists m, nanmean l = Some m /\ (m == mean_of_present l)%Q.
Proof.
  intros H. apply present_nonempty in H. unfold nanmean, mean_of_present.
  destruct (present l) as [|y ys]; [congruence|].
  eexists. split; [reflexivity | apply Qred_correct].
Qed.

Lemma nanmean_None l : (forall x, ~ In (Some x) l) -> nanmean l = None.
Proof.
  intros H. unfold nanmean.
  assert (E : present l = []).
  { induction l as [|[y|] l IH]; simpl.
    - reflexivity.
    - exfalso. apply (H y). left. reflexivity.
    - apply IH. intros x Hx. apply (H x). right. exact Hx. }
  rewrite E. reflexivity.
Qed.

Lemma impute_complete r : ~ In None (cells (grades r)) -> impute r = r.
Proof.
  destruct r as [a g e [[x1|] [x2|] [x3|] [x4|] [x5|]]];
    unfold impute; simpl; intros H; try reflexivity; exfalso; tauto.
Qed.




(** C5.  On a table with the default index, every row keeps its other
    fields; a row with no missing grade is unchanged; in a row with a
    missing grade and a present one, each missing grade becomes the
    arithmetic mean of the present grades of that row.  The object holds
    the table that is returned.  The grades 80, NA, 90, NA, 100 become
    80, 90, 90, 90, 100. *)
Theorem fill_na_with_mean_imputes self df :
  data self = Some df ->
  default_index df ->
  exists df' na_index self',
    fill_na_with_mean self = Ok ((df', na_index), self')
    /\ data self' = Some df'
    /\ List.length (body df') = List.length (body df)
    /\ (forall i r,
          nth_error (body df) i = Some r ->
          exists r',
            nth_error (body df') i = Some r'
            /\ age r' = age r /\ gender r' = gender r /\ email r' = email r
            /\ (~ In None (cells (grades r)) -> r' = r)
            /\ (In None (cells (grades r)) ->
                (exists x, In (Some x) (cells (grades r))) ->
                exists m,
                  (m == mean_of_present (cells (grades r)))%Q
                  /\ cells (grades r')
                     = map (fun c => match c with
                                     | Some v => Some v
                                     | None => Some m
                                     end) (cells (grades r))))
    /\ (forall a g e,
          grades (impute (mkRow a g e (mkGrades (mark 80) na (mark 90) na (mark 100))))
          = mkGrades (mark 80) (mark 90) (mark 90) (mark 90) (mark 100)).
Proof.
  intros Hd Hi. rewrite (fill_na_with_mean_rowwise _ Hd Hi). cbv zeta.
  eexists _, _, _. split; [reflexivity|]. cbn [data body].
  split; [reflexivity|]. split; [apply length_map|]. split; [|reflexivity].
  intros i r Hr. exists (impute r).
  split; [apply map_nth_error; exact Hr|].
  repeat split.
  - apply impute_complete.
  - intros _ (x & Hx).
    destruct (@nanmean_Some _ _ Hx) as (m & Hm & Hq).
    exists m. split; [exact Hq|].
    unfold impute. simpl grades. rewrite cells_gmap.
    unfold row_mean. rewrite Hm. apply map_ext. intros [v|]; reflexivity.
Qed.

Lemma fill_na_with_mean_imputes_witness :
  let r := mkRow (mark 30) (Some "male") "ab@c.de"
                 (mkGrades (mark 80) na (mark 90) na (mark 100)) in
  exists df' na_index self',
    fill_na_with_mean (loaded [r]) = Ok ((df', na_index), self')
    /\ data self' = Some df'
    /\ List.length (body df') = 1.
Proof.
  intros r.
  destruct (@fill_na_with_mean_imputes (loaded [r]) _ eq_refl eq_refl)
    as (df' & na_index & self' & E & D & L & _).
  exists df', na_index, self'. split; [exact E|]. split; [exact D | exact L].
Defined.

End Imputation.

(** ** Scoring *)

Section Scoring.

Import Pd.

Lemma existsb_eqb_In z l : existsb (Z.eqb z) l = true <-> In z l.
Proof.
  rewrite existsb_exists. split.
  - intros (x & Hx & E). apply Z.eqb_eq in E. subst. exact Hx.
  - intros H. exists z. split; [exact H | apply Z.eqb_refl].
Qed.

Lemma In_RangeIndex i n : In (Z.of_nat i) (RangeIndex n) <-> i < n.
Proof.
  unfold RangeIndex. rewrite in_map_iff. split.
  - intros (j & E & Hj). apply Nat2Z.inj in E. subst. apply in_seq in Hj. lia.
  - intros H. exists i. split; [reflexivity | apply in_seq; lia].
Qed.

Lemma nth_true_lt mask i : nth i mask false = true -> i < List.length mask.
Proof.
  intros H. destruct (Nat.lt_ge_cases i (List.length mask)) as [L | L];
    [exact L | rewrite nth_overflow in H by exact L; discriminate].
Qed.

(** The positions [np.where] returns are labels of the default index. *)
Lemma where_labels_present mask :
  forallb (fun k => existsb (Z.eqb k) (RangeIndex (List.length mask)))
          (map Z.of_nat (Np.where_ mask)) = true.
Proof.
  apply forallb_forall. intros k Hk.
  apply in_map_iff in Hk as (i & <- & Hi).
  apply existsb_eqb_In, In_RangeIndex, nth_true_lt, where_spec, Hi.
Qed.

Lemma set_by_label (keys : list Z) mask :
  forall (col : list (option Z)) k,
    List.length mask = List.length col ->
    (forall i, k <= i ->
               existsb (Z.eqb (Z.of_nat i)) keys = nth (i - k) mask false) ->
    map (fun lc : Z * option Z =>
           if existsb (Z.eqb (fst lc)) keys then None else snd lc)
        (combine (map Z.of_nat (seq k (List.length col))) col)
    = map (fun bc : bool * option Z => if fst bc then None else snd bc)
          (combine mask col).
Proof.
  induction mask as [|b mask IH]; intros [|c col] k E H; simpl in *;
    try reflexivity; try discriminate.
  f_equal.
  - rewrite (H k (Nat.le_refl k)), Nat.sub_diag. reflexivity.
  - apply IH; [lia|]. intros i Hi. rewrite (H i) by lia.
    replace (i - k) with (S (i - S k)) by lia. reflexivity.
Qed.

Lemma loc_set_nan_default mask col :
  List.length mask = List.length col ->
  loc_set_nan (RangeIndex (List.length mask)) (map Z.of_nat (Np.where_ mask)) col
  = Ok (map (fun bc : bool * option Z => if fst bc then None else snd bc)
            (combine mask col)).
Proof.
  intros E. unfold loc_set_nan.
  rewrite where_labels_present. f_equal. unfold RangeIndex. rewrite E.
  apply set_by_label; [exact E|]. intros i _. rewrite Nat.sub_0_r.
  apply eq_true_iff_eq. rewrite existsb_eqb_In, <- where_spec, in_map_iff.
  split.
  - intros (j & Hj & Hin). apply Nat2Z.inj in Hj. subst. exact Hin.
  - intros Hin. exists i. auto.
Qed.

Lemma align_default_from (pre : list (option Z)) :
  forall suf,
    map (fun l => if (0 <=? l)%Z && (l <? Z.of_nat (List.length (pre ++ suf)))%Z
                  then nth (Z.to_nat l) (pre ++ suf) None
                  else None)
        (map Z.of_nat (seq (List.length pre) (List.length suf)))
    = suf.
Proof.
  intros suf. revert pre. induction suf as [|c suf IH]; intros pre; simpl.
  - reflexivity.
  - f_equal.
    + rewrite Nat2Z.id, length_app. simpl.
      replace ((0 <=? Z.of_nat (List.length pre))%Z) with true
        by (symmetry; apply Z.leb_le; lia).
      replace ((Z.of_nat (List.length pre)
                <? Z.of_nat (List.length pre + S (List.length suf)))%Z) with true
        by (symmetry; apply Z.ltb_lt; lia).
      simpl. rewrite app_nth2, Nat.sub_diag by lia. reflexivity.
    + specialize (IH (pre ++ [c])).
      rewrite <- app_assoc, last_length in IH. exact IH.
Qed.

Lemma align_default values :
  align (RangeIndex (List.length values)) values = values.
Proof. exact (align_default_from [] values). Qed.

Lemma forallb_map_compose {A B} (f : A -> B) (p : B -> bool) (l : list A) :
  forallb p (map f l) = forallb (fun x => p (f x)) l.
Proof. induction l; simpl; congruence. Qed.

Lemma to_UInt8_fits values :
  forallb fits_UInt8 values = true -> to_UInt8 values = Ok values.
Proof. unfold to_UInt8, fits_UInt8. intros ->. reflexivity. Qed.

Lemma masked_scores m (rows : list Row) :
  map (fun bc : bool * option Z => if fst bc then None else snd bc)
      (combine (map (fun g => (m <? na_count g)%Z) (map grades rows))
               (map (fun g => option_map Qfloor (row_mean g)) (map grades rows)))
  = map (fun r => score_of m (grades r)) rows.
Proof.
  induction rows as [|r rows IH]; simpl; [reflexivity|].
  rewrite IH. reflexivity.
Qed.

Lemma score_subjects_default m self df :
  data self = Some df ->
  default_index df ->
  forallb (fun r => fits_UInt8 (score_of m (grades r))) (body df) = true ->
  score_subjects m self =
  let df' := mkDF (index df) (saved df) (body df)
                  (Some (map (fun r => score_of m (grades r)) (body df))) in
  Ok (df', mkSelf (data_fname self) (Some df') (Some m)).
Proof.
  intros Hd Hi Hf.
  unfold score_subjects, bind, self_data, set_maximal_nans_per_sub, lift.
  rewrite Hd. unfold Ok at 1 2. cbv iota beta zeta.
  set (mask := map (fun g => (m <? na_count g)%Z) (map grades (body df))).
  set (col := map (fun g => option_map Qfloor (row_mean g)) (map grades (body df))).
  assert (Lc : List.length col = List.length (body df))
    by (unfold col; rewrite !length_map; reflexivity).
  assert (Lm : List.length mask = List.length col)
    by (unfold mask, col; rewrite !length_map; reflexivity).
  rewrite Hi, <- Lc, <- Lm, (loc_set_nan_default _ _ Lm).
  unfold mask, col. rewrite masked_scores.
  unfold Ok. cbv iota beta.
  rewrite to_UInt8_fits by (rewrite forallb_map_compose; exact Hf).
  unfold Ok, set_self_data, ret. cbv iota beta.
  replace (List.length (map (fun g => (m <? na_count g)%Z)
                            (map grades (body df))))
    with (List.length (map (fun r => score_of m (grades r)) (body df)))
    by (rewrite !length_map; reflexivity).
  rewrite align_default. reflexivity.
Qed.


Lemma nanmean_mean l m :
  nanmean l = Some m -> (m == mean_of_present l)%Q.
Proof.
  unfold nanmean, mean_of_present.
  destruct (present l) as [|y ys]; [discriminate|].
  intros H.
  assert (E : m = Qred (total (y :: ys)
                        / inject_Z (Z.of_nat (List.length (y :: ys)))))
    by congruence.
  rewrite E. apply Qred_correct.
Qed.





(** Outside the hypotheses of the theorem: a mean above 255 cannot be
    cast, and on foreign labels the positions are not found. *)
Example score_subjects_overflow :
  score_subjects 1
    (loaded [mkRow (mark 30) (Some "male") "ab@c.de"
                   (mkGrades (mark 300) (mark 300) (mark 300) (mark 300) (mark 300))])
  = Raise TypeError.
Proof. reflexivity. Qed.

Example score_subjects_foreign_labels :
  score_subjects 1
    (mkSelf "data.json" (Some (mkDF [5%Z] [] [blank] None)) None)
  = Raise KeyError.
Proof. reflexivity. Qed.

End Scoring.

(** ** The age histogram *)

Section Histogram.

Lemma count_split {A} (p q r : A -> bool) (l : list A) :
  (forall x, q x = p x || r x) ->
  (forall x, p x && r x = false) ->
  Np.count q l = (Np.count p l + Np.count r l)%Z.
Proof.
  intros Hq Hd. unfold Np.count.
  induction l as [|x l IH]; [reflexivity|].
  cbn [filter]. rewrite (Hq x). specialize (Hd x).
  destruct (p x), (r x); try discriminate;
    cbn [orb List.length]; rewrite ?Nat2Z.inj_succ; lia.
Qed.

Lemma lt_spec x y : Np.lt x y = true <-> (x < y)%Q.
Proof.
  unfold Np.lt. rewrite negb_true_iff, <- not_true_iff_false, Qle_bool_iff.
  split; [apply Qnot_le_lt | apply Qlt_not_le].
Qed.

Lemma le_spec x y : Np.le x y = true <-> (x <= y)%Q.
Proof. apply Qle_bool_iff. Qed.

Ltac order :=
  repeat match goal with
         | |- context [Np.lt ?a ?b] =>
             let E := fresh in
             destruct (Np.lt a b) eqn:E;
             [apply lt_spec in E
             |apply not_true_iff_false in E; rewrite lt_spec in E]
         | |- context [Np.le ?a ?b] =>
             let E := fresh in
             destruct (Np.le a b) eqn:E;
             [apply le_spec in E
             |apply not_true_iff_false in E; rewrite le_spec in E]
         end;
  simpl; try reflexivity; exfalso; lra.

(** The difference of two cumulative counts is the count of a bin. *)
Lemma bin_half_open a lo hi :
  (lo <= hi)%Q ->
  (Np.searchsorted_left a hi - Np.searchsorted_left a lo)%Z
  = Np.count (age_between lo hi false) a.
Proof.
  intros H. unfold Np.searchsorted_left.
  rewrite (@count_split _
             (fun x => match x with Some y => Np.lt y lo | None => false end)
             (fun x => match x with Some y => Np.lt y hi | None => false end)
             (age_between lo hi false)).
  - lia.
  - intros [y|]; [|reflexivity]. unfold age_between. order.
  - intros [y|]; [|reflexivity]. unfold age_between. order.
Qed.

Lemma bin_closed a lo hi :
  (lo <= hi)%Q ->
  (Np.searchsorted_right a hi - Np.searchsorted_left a lo)%Z
  = Np.count (age_between lo hi true) a.
Proof.
  intros H. unfold Np.searchsorted_left, Np.searchsorted_right.
  rewrite (@count_split _
             (fun x => match x with Some y => Np.lt y lo | None => false end)
             (fun x => match x with Some y => Np.le y hi | None => false end)
             (age_between lo hi true)).
  - lia.
  - intros [y|]; [|reflexivity]. unfold age_between. order.
  - intros [y|]; [|reflexivity]. unfold age_between. order.
Qed.

Lemma linspace_0_100_11 :
  Np.linspace (inject_Z 0) (inject_Z 100) 11 = map edge (seq 0 11).
Proof. reflexivity. Qed.

Lemma histogram_edges a :
  Np.histogram a (map edge (seq 0 11))
  = ([ (Np.searchsorted_left a (edge 1) - Np.searchsorted_left a (edge 0))%Z;
       (Np.searchsorted_left a (edge 2) - Np.searchsorted_left a (edge 1))%Z;
       (Np.searchsorted_left a (edge 3) - Np.searchsorted_left a (edge 2))%Z;
       (Np.searchsorted_left a (edge 4) - Np.searchsorted_left a (edge 3))%Z;
       (Np.searchsorted_left a (edge 5) - Np.searchsorted_left a (edge 4))%Z;
       (Np.searchsorted_left a (edge 6) - Np.searchsorted_left a (edge 5))%Z;
       (Np.searchsorted_left a (edge 7) - Np.searchsorted_left a (edge 6))%Z;
       (Np.searchsorted_left a (edge 8) - Np.searchsorted_left a (edge 7))%Z;
       (Np.searchsorted_left a (edge 9) - Np.searchsorted_left a (edge 8))%Z;
       (Np.searchsorted_right a (edge 10) - Np.searchsorted_left a (edge 9))%Z ],
     map edge (seq 0 11)).
Proof. reflexivity. Qed.

Lemma edge_le i j : i <= j -> (edge i <= edge j)%Q.
Proof. intros H. unfold edge. rewrite <- Zle_Qle. lia. Qed.

(** C6.  The age distribution returns 10 counts and the 11 edges
    0, 10, ..., 100.  Bin [i] counts the ages in [10 i, 10 (i + 1)), the
    last bin the ages in [90, 100]; an age that is missing or outside
    [0, 100] is in no bin, so the counts add up to the number of ages in
    [0, 100].  The object is left as it was. *)
Theorem show_age_distrib_bins self df :
  data self = Some df ->
  exists hist bins self',
    show_age_distrib self = Ok ((hist, bins), self')
    /\ self' = self
    /\ bins = map edge (seq 0 11)
    /\ List.length bins = 11
    /\ List.length hist = 10
    /\ (forall i,
          i < 9 ->
          nth i hist 0%Z
          = Np.count (age_between (edge i) (edge (S i)) false)
                     (map Pd.age (Pd.body df)))
    /\ nth 9 hist 0%Z
       = Np.count (age_between (edge 9) (edge 10) true)
                  (map Pd.age (Pd.body df))
    /\ fold_right Z.add 0%Z hist
       = Np.count (age_between (edge 0) (edge 10) true)
                  (map Pd.age (Pd.body df))
    /\ (forall i closed a,
          i < 10 ->
          age_between (edge i) (edge (S i)) closed a = true ->
          exists x, a = Some x /\ (inject_Z 0 <= x)%Q /\ (x <= inject_Z 100)%Q).
Proof.
  intros Hd. unfold show_age_distrib, bind, self_data. rewrite Hd.
  unfold Ok, ret. cbv iota beta zeta.
  rewrite linspace_0_100_11, histogram_edges.
  eexists _, _, _. split; [reflexivity|].
  repeat (split; [reflexivity|]). split; [|split; [|split]]; cycle 3.
  { intros i closed [x|] Hi H; [|discriminate]. exists x.
    split; [reflexivity|]. unfold age_between in H.
    apply andb_true_iff in H as [H1 H2]. apply le_spec in H1.
    assert (H3 : (x <= edge (S i))%Q).
    { destruct closed; [apply le_spec; exact H2|].
      apply Qlt_le_weak, lt_spec. exact H2. }
    split.
    - apply Qle_trans with (edge i); [|exact H1].
      apply (@edge_le 0 i). lia.
    - apply Qle_trans with (edge (S i)); [exact H3|].
      apply (@edge_le (S i) 10). lia. }
  - intros i Hi.
    do 9 (destruct i as [|i];
          [cbn [nth]; apply bin_half_open, edge_le; lia|]).
    lia.
  - cbn [nth]. apply bin_closed, edge_le. lia.
  - rewrite <- (@bin_closed _ (edge 0) (edge 10)) by (apply edge_le; lia).
    cbn [fold_right]. lia.
Qed.

Lemma show_age_distrib_bins_witness :
  exists hist bins self',
    show_age_distrib (loaded [participant "ab@c.de"]) = Ok ((hist, bins), self')
    /\ self' = loaded [participant "ab@c.de"]
    /\ bins = map edge (seq 0 11)
    /\ List.length bins = 11
    /\ List.length hist = 10.
Proof.
  destruct (@show_age_distrib_bins (loaded [participant "ab@c.de"]) _ eq_refl)
    as (hist & bins & self' & E & S & B & Lb & Lh & _).
  exists hist, bins, self'. repeat (split; [assumption|]). exact Lh.
Defined.

End Histogram.

(** ** Grouping by gender and age *)

Section Grouping.

Import Pd.



























End Grouping.

(** ** Construction *)

Section Construction.

Lemma is_file_spec fs p :
  is_file fs p = true <-> exists content, fs p = Some (File content).
Proof.
  unfold is_file. destruct (fs p) as [[c|]|].
  - split; eauto.
  - split; [discriminate | intros (c & H); discriminate].
  - split; [discriminate | intros (c & H); discriminate].
Qed.

(** C9.  Construction raises [ValueError] exactly when the path does not
    lead to an existing file; on a file it succeeds whatever the file
    holds, nothing else is checked, and what the loader makes of the
    content is met by [read_data]. *)
Theorem init_requires_file fs fname :
  (__init__ fs fname = Raise ValueError <->
   ~ exists content, fs fname = Some (File content))
  /\ (forall content,
        fs fname = Some (File content) ->
        __init__ fs fname = Ok (mkSelf fname None None))
  /\ (forall e, __init__ fs fname = Raise e -> e = ValueError)
  /\ (forall read_json self,
        __init__ fs fname = Ok self ->
        read_data read_json fs self =
        match read_json fs fname with
        | inl e => inl e
        | inr df => Ok (tt, mkSelf fname (Some df) None)
        end).
Proof.
  unfold __init__. rewrite <- is_file_spec.
  destruct (is_file fs fname) eqn:E.
  - split; [split; [discriminate | intros H; exfalso; apply H; reflexivity]|].
    split; [reflexivity|]. split; [discriminate|].
    intros read_json self H. injection H as <-. reflexivity.
  - split; [split; [intros _ H; discriminate | reflexivity]|].
    split.
    + intros content H.
      assert (F : is_file fs fname = true)
        by (apply is_file_spec; eauto).
      congruence.
    + split; [intros e H; injection H as <-; reflexivity|].
      intros read_json self H. discriminate.
Qed.

Lemma init_requires_file_witness :
  __init__ disk "data.json" = Ok (mkSelf "data.json" None None)
  /\ __init__ disk "tests" = Raise ValueError
  /\ __init__ disk "missing.json" = Raise ValueError.
Proof.
  split; [|split].
  - apply (proj1 (proj2 (init_requires_file disk "data.json")) "not json").
    reflexivity.
  - apply (proj1 (init_requires_file disk "tests")).
    intros (c & H). discriminate H.
  - apply (proj1 (init_requires_file disk "missing.json")).
    intros (c & H). discriminate H.
Defined.

End Construction.

(** * Further properties *)

(** ** Before [read_data] *)

Section Unloaded.

(** X1.  An object that [__init__] has built holds no table: each of the
    five methods raises [AttributeError] on it. *)
Theorem methods_need_read_data fs fname self :
  __init__ fs fname = Ok self ->
  show_age_distrib self = Raise AttributeError
  /\ remove_rows_without_mail self = Raise AttributeError
  /\ fill_na_with_mean self = Raise AttributeError
  /\ (forall m, score_subjects m self = Raise AttributeError)
  /\ correlate_gender_age self = Raise AttributeError.
Proof.
  unfold __init__. destruct (is_file fs fname); [|discriminate].
  intros H. injection H as <-. repeat split.
Qed.

Lemma methods_need_read_data_witness :
  show_age_distrib (mkSelf "data.json" None None) = Raise AttributeError
  /\ remove_rows_without_mail (mkSelf "data.json" None None) = Raise AttributeError
  /\ fill_na_with_mean (mkSelf "data.json" None None) = Raise AttributeError
  /\ (forall m, score_subjects m (mkSelf "data.json" None None) = Raise AttributeError)
  /\ correlate_gender_age (mkSelf "data.json" None None) = Raise AttributeError.
Proof.
  exact (@methods_need_read_data disk "data.json" _ eq_refl).
Defined.

End Unloaded.

(** ** The filter, further *)

Section FilterFurther.

Import Pd.

Lemma filter_twice {A} (p : A -> bool) (l : list A) :
  filter p (filter p l) = filter p l.
Proof.
  induction l as [|x l IH]; simpl; [reflexivity|].
  destruct (p x) eqn:E; simpl; rewrite ?E, IH; reflexivity.
Qed.

Lemma select_all {A} (p : A -> bool) (l : list A) :
  (forall x, In x l -> p x = true) -> select (map p l) l = l.
Proof.
  intros H. rewrite select_map_filter. apply forallb_filter_id.
  apply forallb_forall. exact H.
Qed.

Lemma reset_index_fresh df :
  mem "index" (columns df) = false ->
  reset_index df =
  Ok (mkDF (RangeIndex (List.length (index df)))
           (("index", index df) :: saved df) (body df) (score df)).
Proof. intros H. unfold reset_index. rewrite H, H. reflexivity. Qed.

Lemma remove_rows_without_mail_fresh self df :
  data self = Some df ->
  mem "index" (columns df) = false ->
  remove_rows_without_mail self =
  Ok (mkDF (RangeIndex (List.length (select (map keeps (body df)) (index df))))
           (("index", select (map keeps (body df)) (index df))
              :: map (fun c => (fst c, select (map keeps (body df)) (snd c)))
                     (saved df))
           (filter keeps (body df))
           (option_map (select (map keeps (body df))) (score df)),
      self).
Proof.
  intros Hd Hc. rewrite (remove_rows_without_mail_unfold _ Hd).
  rewrite reset_index_fresh by (rewrite columns_getitem_mask; exact Hc).
  unfold Ok. simpl. rewrite select_map_filter. reflexivity.
Qed.

(** X2.  On rows and index the filter is idempotent: filtering the table
    that the filter has returned keeps every row, in order, and gives the
    same index, and every row of a filtered table passes the test. *)
Theorem remove_rows_without_mail_rows_idempotent self df :
  data self = Some df ->
  labelled df ->
  mem "index" (columns df) = false ->
  mem "level_0" (columns df) = false ->
  exists once twice,
    remove_rows_without_mail self = Ok (once, self)
    /\ remove_rows_without_mail (holding self once) = Ok (twice, holding self once)
    /\ body twice = body once
    /\ index twice = index once
    /\ (forall r, In r (body once) -> keeps r = true).
Proof.
  intros Hd Hl Hi H0.
  assert (H1 : exists once,
             remove_rows_without_mail self = Ok (once, self)
             /\ body once = filter keeps (body df)
             /\ index once = RangeIndex (List.length (filter keeps (body df)))
             /\ mem "level_0" (columns once) = false).
  { rewrite (remove_rows_without_mail_fresh _ Hd Hi).
    eexists. split; [reflexivity|]. cbn [body index].
    split; [reflexivity|]. split.
    - f_equal. rewrite <- select_map_filter. apply select_length. exact Hl.
    - unfold columns, mem in *. simpl. rewrite map_map. simpl.
      destruct (score df); exact H0. }
  destruct H1 as (once & E1 & B1 & I1 & Hc).
  destruct (@remove_rows_without_mail_returns (holding self once) once eq_refl Hc)
    as (name & E2).
  eexists once, _. split; [exact E1|]. split; [exact E2|]. cbn [body index].
  assert (Hk : forall r, In r (body once) -> keeps r = true).
  { intros r Hr. rewrite B1 in Hr. apply filter_In in Hr. tauto. }
  split; [|split; [|exact Hk]].
  - rewrite B1. apply filter_twice.
  - rewrite I1 at 2. f_equal.
    rewrite (@select_length _ _ _ (index once) (body once)).
    + rewrite select_map_filter, B1, filter_twice. reflexivity.
    + rewrite I1, B1. apply length_RangeIndex.
Qed.

Lemma remove_rows_without_mail_rows_idempotent_witness :
  let rows := [participant "John@example.com"; participant "john.doe@example.com"] in
  exists once twice,
    remove_rows_without_mail (loaded rows) = Ok (once, loaded rows)
    /\ remove_rows_without_mail (holding (loaded rows) once)
       = Ok (twice, holding (loaded rows) once)
    /\ body twice = body once
    /\ index twice = index once
    /\ (forall r, In r (body once) -> keeps r = true).
Proof.
  exact (@remove_rows_without_mail_rows_idempotent
           (loaded [participant "John@example.com";
                    participant "john.doe@example.com"])
           _ eq_refl eq_refl eq_refl eq_refl).
Defined.

Lemma select_range mask :
  forall k,
    select mask (map Z.of_nat (seq k (List.length mask)))
    = map Z.of_nat (Np.where_from k mask).
Proof.
  induction mask as [|b mask IH]; intros k; simpl; [reflexivity|].
  rewrite IH. destruct b; reflexivity.
Qed.

Lemma where_from_rows {A} (p : A -> bool) (l : list A) :
  forall pre,
    map (nth_error (pre ++ l)) (Np.where_from (List.length pre) (map p l))
    = map Some (filter p l).
Proof.
  induction l as [|x l IH]; intros pre; simpl; [reflexivity|].
  specialize (IH (pre ++ [x])).
  rewrite <- app_assoc, last_length in IH. simpl in IH.
  rewrite map_app, IH. destruct (p x); simpl; [|reflexivity].
  rewrite nth_error_app2, Nat.sub_diag by lia. reflexivity.
Qed.

(** X3.  On a table with the default index and no column [index], the
    column that the filter puts in front is named [index] and holds, row by
    row, the position that the returned row had in the table: looking the
    positions up in the table gives the returned rows back, and the
    positions ascend. *)
Theorem remove_rows_without_mail_index_column self df :
  data self = Some df ->
  default_index df ->
  mem "index" (columns df) = false ->
  exists out positions,
    remove_rows_without_mail self = Ok (out, self)
    /\ hd_error (saved out) = Some ("index", map Z.of_nat positions)
    /\ map (nth_error (body df)) positions = map Some (body out)
    /\ StronglySorted lt positions.
Proof.
  intros Hd Hi Hc. rewrite (remove_rows_without_mail_fresh _ Hd Hc).
  exists (mkDF (RangeIndex (List.length (select (map keeps (body df)) (index df))))
               (("index", select (map keeps (body df)) (index df))
                  :: map (fun c => (fst c, select (map keeps (body df)) (snd c)))
                         (saved df))
               (filter keeps (body df))
               (option_map (select (map keeps (body df))) (score df))),
         (Np.where_ (map keeps (body df))).
  split; [reflexivity|]. cbn [saved body hd_error]. split; [|split].
  - rewrite Hi. unfold RangeIndex, Np.where_.
    rewrite <- (length_map keeps (body df)), select_range. reflexivity.
  - exact (where_from_rows keeps (body df) []).
  - apply where_sorted.
Qed.

Lemma remove_rows_without_mail_index_column_witness :
  let rows := [participant "John@example.com"; participant "john.doe@example.com"] in
  exists out positions,
    remove_rows_without_mail (loaded rows) = Ok (out, loaded rows)
    /\ hd_error (saved out) = Some ("index", map Z.of_nat positions)
    /\ map (nth_error rows) positions = map Some (body out)
    /\ StronglySorted lt positions.
Proof.
  exact (@remove_rows_without_mail_index_column
           (loaded [participant "John@example.com";
                    participant "john.doe@example.com"])
           _ eq_refl eq_refl eq_refl).
Defined.

End FilterFurther.

(** ** The shape of the frame *)

Section Shape.

Import Pd.

Lemma length_fillna_T labels means gs :
  List.length (fillna_T labels means gs) = List.length (combine labels gs).
Proof. unfold fillna_T. rewrite fold_fills, !length_map. reflexivity. Qed.

Lemma score_subjects_inv m self df df' self' :
  data self = Some df ->
  score_subjects m self = Ok (df', self') ->
  exists values,
    df' = mkDF (index df) (saved df) (body df) (Some (align (index df) values))
    /\ self' = mkSelf (data_fname self) (Some df') (Some m).
Proof.
  intros Hd. unfold score_subjects, bind, self_data, set_maximal_nans_per_sub, lift.
  rewrite Hd. unfold Ok at 1 2. cbv iota beta zeta.
  destruct (loc_set_nan _ _ _) as [e | floored]; [discriminate|].
  unfold Ok at 1. cbv iota beta.
  destruct (to_UInt8 floored) as [e | values]; [discriminate|].
  unfold Ok, set_self_data, ret. cbv iota beta.
  intros H. injection H as <- <-. exists values. split; reflexivity.
Qed.

(** X4.  The methods keep the frame rectangular: when every column of the
    table has one cell per row, so has every column of the table that the
    filter returns, of the table after the imputation and of the table
    after the scoring, its new column [score] included. *)
Theorem methods_keep_frame_rectangular self df :
  data self = Some df ->
  rectangular df ->
  (forall out self',
      remove_rows_without_mail self = Ok (out, self') -> rectangular out)
  /\ (forall df' na_index self',
        fill_na_with_mean self = Ok ((df', na_index), self') -> rectangular df')
  /\ (forall m df' self',
        score_subjects m self = Ok (df', self') -> rectangular df').
Proof.
  intros Hd (Hi & Hs & Hc). split; [|split].
  - intros out self' H. rewrite (remove_rows_without_mail_unfold _ Hd) in H.
    unfold reset_index in H.
    destruct (mem _ (columns (getitem_mask df (map keeps (body df)))));
      [discriminate|].
    unfold Ok in H. injection H as <- _. unfold rectangular. cbn [index saved body score].
    split; [|split].
    + simpl. rewrite length_RangeIndex. apply select_length. exact Hi.
    + constructor; [simpl; apply select_length; exact Hi|].
      simpl. apply Forall_map. eapply Forall_impl; [|exact Hs].
      intros c Hl. simpl. apply select_length. exact Hl.
    + simpl. destruct (score df) as [col|]; simpl; [|exact I].
      apply select_length. exact Hc.
  - intros df' na_index self' H. rewrite (fill_na_with_mean_unfold _ Hd) in H.
    cbv zeta in H. unfold Ok in H. injection H as <- _ _.
    assert (L : List.length
                  (set_grades (body df)
                     (fillna_T (index df) (map row_mean (map grades (body df)))
                               (map grades (body df))))
                = List.length (body df)).
    { unfold set_grades.
      rewrite length_map, length_combine, length_fillna_T, length_combine,
        length_map. lia. }
    unfold rectangular. cbn [index saved body score]. rewrite L.
    split; [exact Hi | split; [exact Hs | exact Hc]].
  - intros m df' self' H.
    destruct (@score_subjects_inv _ _ _ _ _ Hd H) as (values & -> & _).
    unfold rectangular. cbn [index saved body score].
    split; [exact Hi | split; [exact Hs|]].
    unfold align. rewrite length_map. exact Hi.
Qed.

Lemma methods_keep_frame_rectangular_witness :
  let rows := [participant "John@example.com"; blank] in
  (forall out self',
      remove_rows_without_mail (loaded rows) = Ok (out, self') -> rectangular out)
  /\ (forall df' na_index self',
        fill_na_with_mean (loaded rows) = Ok ((df', na_index), self') ->
        rectangular df')
  /\ (forall m df' self',
        score_subjects m (loaded rows) = Ok (df', self') -> rectangular df').
Proof.
  exact (@methods_keep_frame_rectangular
           (loaded [participant "John@example.com"; blank]) _ eq_refl
           (conj eq_refl (conj (Forall_nil _) I))).
Defined.

End Shape.

(** ** What a kept address looks like *)

Section KeptAddress.

Import Pd.

Lemma count_occ_class (cls : ascii -> bool) l x :
  forallb cls l = true -> cls x = false -> count_occ ascii_dec l x = 0.
Proof.
  intros Hl Hx. induction l as [|c l IH]; simpl in *; [reflexivity|].
  apply andb_true_iff in Hl as [Hc Hl].
  destruct (ascii_dec c x) as [-> | _]; [congruence | auto].
Qed.


Lemma forallb_In {A} (p : A -> bool) l x :
  forallb p l = true -> In x l -> p x = true.
Proof. intros H. rewrite forallb_forall in H. apply H. Qed.

(** The parts of an accepted address, the final newline apart. *)
Lemma accepted_parts e :
  accepted e ->
  exists l1 sp l2 dm sf tl,
    list_ascii_of_string e
    = (l1 ++ sp ++ l2) ++ "@"%char :: (dm ++ "."%char :: sf ++ tl)
    /\ one_or_more Re.lower_alnum l1
    /\ (sp = [] \/ sp = ["."%char] \/ sp = ["_"%char])
    /\ one_or_more Re.lower_alnum l2
    /\ one_or_more Re.word dm
    /\ one_or_more Re.word sf
    /\ (tl = [] \/ tl = [Re.newline]).
Proof.
  intros [H | (s & E & H)];
    destruct H as (l1 & sp & l2 & dm & sf & Es & H1 & Hs & H2 & H3 & H4 & _);
    exists l1, sp, l2, dm, sf.
  - exists []. rewrite Es, app_nil_r.
    repeat (rewrite <- app_assoc; simpl). auto 10.
  - exists [Re.newline]. rewrite E, Es.
    repeat (rewrite <- app_assoc; simpl). auto 10.
Qed.

(** X5.  A kept address has exactly one [@], at least two characters
    before it, and exactly one [.] after it: an address with a one-letter
    local part or with a dotted domain is dropped. *)
Theorem kept_address_structure r :
  keeps r = true ->
  exists local rest,
    list_ascii_of_string (email r) = local ++ "@"%char :: rest
    /\ 2 <= List.length local
    /\ count_occ ascii_dec (list_ascii_of_string (email r)) "@"%char = 1
    /\ count_occ ascii_dec rest "."%char = 1.
Proof.
  intros H. apply keeps_accepted, accepted_parts in H
    as (l1 & sp & l2 & dm & sf & tl & E & (N1 & A1) & Hs & (N2 & A2)
        & (N3 & A3) & (N4 & A4) & Ht).
  exists (l1 ++ sp ++ l2), (dm ++ "."%char :: sf ++ tl).
  split; [exact E|]. split; [|split].
  - rewrite !length_app. destruct l1, l2; simpl; try congruence; lia.
  - rewrite E.
    repeat first [ rewrite count_occ_app
                 | rewrite count_occ_cons_eq by reflexivity
                 | rewrite count_occ_cons_neq by discriminate ].
    rewrite (@count_occ_class _ _ _ A1), (@count_occ_class _ _ _ A2),
      (@count_occ_class _ _ _ A3), (@count_occ_class _ _ _ A4) by reflexivity.
    destruct Hs as [-> | [-> | ->]], Ht as [-> | ->]; reflexivity.
  - repeat first [ rewrite count_occ_app
                 | rewrite count_occ_cons_eq by reflexivity
                 | rewrite count_occ_cons_neq by discriminate ].
    rewrite (@count_occ_class _ _ _ A3), (@count_occ_class _ _ _ A4) by reflexivity.
    destruct Ht as [-> | ->]; reflexivity.
Qed.

Lemma kept_address_structure_witness :
  exists local rest,
    list_ascii_of_string "john.doe@example.com" = local ++ "@"%char :: rest
    /\ 2 <= List.length local
    /\ count_occ ascii_dec (list_ascii_of_string "john.doe@example.com") "@"%char = 1
    /\ count_occ ascii_dec rest "."%char = 1.
Proof.
  exact (@kept_address_structure (participant "john.doe@example.com") eq_refl).
Defined.



End KeptAddress.

(** ** The mean of a row and the imputation *)

Section MeanFurther.

Import Pd.

Lemma length_present_missing l :
  List.length l = List.length (present l) + missing l.
Proof.
  unfold missing. induction l as [|[x|] l IH]; simpl; lia.
Qed.

Lemma length_present_filled m l :
  List.length (present (map (fillna (Some m)) l)) = List.length l.
Proof. induction l as [|[x|] l IH]; simpl; congruence. Qed.

Lemma total_cons x l : total (x :: l) = (x + total l)%Q.
Proof. reflexivity. Qed.

Lemma total_present_filled m l :
  (total (present (map (fillna (Some m)) l))
   == total (present l) + inject_Z (Z.of_nat (missing l)) * m)%Q.
Proof.
  unfold missing.
  induction l as [|[x|] l IH];
    cbn [map fillna present filter isna List.length];
    rewrite ?total_cons, ?IH, ?Nat2Z.inj_succ; unfold Z.succ;
    rewrite ?inject_Z_plus.
  - change (inject_Z (Z.of_nat 0)) with 0%Q. unfold total. simpl. ring.
  - ring.
  - ring.
Qed.

Lemma nanmean_nonempty l :
  present l <> [] ->
  nanmean l
  = Some (Qred (total (present l) / inject_Z (Z.of_nat (List.length (present l))))).
Proof. unfold nanmean. destruct (present l); [congruence | reflexivity]. Qed.

Lemma inject_nat_pos n : 0 < n -> (0 < inject_Z (Z.of_nat n))%Q.
Proof. intros H. change 0%Q with (inject_Z 0). rewrite <- Zlt_Qlt. lia. Qed.

(** Filling the gaps of a list with its mean leaves the mean as it is. *)
Lemma nanmean_filled l :
  nanmean (map (fillna (nanmean l)) l) = nanmean l.
Proof.
  destruct (present l) as [|y ys] eqn:E.
  - assert (N : nanmean l = None) by (unfold nanmean; rewrite E; reflexivity).
    rewrite N. replace (map (fillna None) l) with l; [exact N|].
    rewrite <- (map_id l) at 1. apply map_ext. intros [x|]; reflexivity.
  - assert (Hp : present l <> []) by (rewrite E; discriminate).
    rewrite (@nanmean_nonempty _ Hp).
    set (m := Qred (total (present l)
                    / inject_Z (Z.of_nat (List.length (present l))))).
    assert (Hm : (m == total (present l)
                      / inject_Z (Z.of_nat (List.length (present l))))%Q)
      by apply Qred_correct.
    assert (Hn : 0 < List.length (present l)) by (rewrite E; simpl; lia).
    assert (Hf : present (map (fillna (Some m)) l) <> []).
    { intros H. apply (f_equal (@List.length Q)) in H.
      rewrite length_present_filled, length_present_missing in H.
      simpl in H. lia. }
    rewrite (@nanmean_nonempty _ Hf). f_equal. apply Qred_complete.
    rewrite length_present_filled, total_present_filled, Hm.
    rewrite (length_present_missing l).
    rewrite Nat2Z.inj_add, inject_Z_plus.
    pose proof (@inject_nat_pos _ Hn) as Hpos.
    assert (Hk : (0 <= inject_Z (Z.of_nat (missing l)))%Q).
    { change 0%Q with (inject_Z 0). rewrite <- Zle_Qle. lia. }
    field. split.
    + intros H. rewrite H in Hpos. apply (Qlt_irrefl 0). exact Hpos.
    + intros H. apply (Qlt_irrefl 0).
      rewrite <- H at 2. rewrite <- (Qplus_0_r 0) at 1.
      apply Qplus_lt_le_compat; assumption.
Qed.

Lemma row_mean_impute r : row_mean (grades (impute r)) = row_mean (grades r).
Proof.
  unfold impute, row_mean. cbn [grades]. rewrite cells_gmap.
  apply nanmean_filled.
Qed.

Lemma fillna_twice v c : fillna v (fillna v c) = fillna v c.
Proof. destruct c, v; reflexivity. Qed.

Lemma impute_twice r : impute (impute r) = impute r.
Proof.
  unfold impute at 1. rewrite row_mean_impute.
  unfold impute. cbn [age gender email grades]. f_equal.
  unfold gmap. cbn [q1 q2 q3 q4 q5]. rewrite !fillna_twice. reflexivity.
Qed.

Lemma filled_no_gap m l : existsb isna (map (fillna (Some m)) l) = false.
Proof. induction l as [|[x|] l IH]; simpl; auto. Qed.

(** After the imputation a row has a gap only if it has no grade at all. *)
Lemma any_na_impute r :
  any_na (grades (impute r)) = true <->
  (forall x, ~ In (Some x) (cells (grades r))).
Proof.
  unfold any_na, impute. cbn [grades]. rewrite cells_gmap. unfold row_mean.
  split.
  - intros H x Hx. destruct (@nanmean_Some _ _ Hx) as (m & E & _).
    rewrite E, filled_no_gap in H. discriminate.
  - intros H. rewrite (nanmean_None _ H).
    assert (E : q1 (grades r) = None)
      by (destruct (q1 (grades r)) as [x|] eqn:E; [|reflexivity];
          exfalso; apply (H x); simpl; auto).
    unfold cells. simpl. rewrite E. reflexivity.
Qed.

Lemma default_index_imputed df :
  default_index df ->
  default_index (mkDF (index df) (saved df) (map impute (body df)) (score df)).
Proof. unfold default_index. simpl. rewrite length_map. auto. Qed.

(** X7.  The imputation is idempotent: a second call changes neither the
    table nor the object, and the positions it returns are those of the
    rows that have no grade at all. *)
Theorem fill_na_with_mean_twice self df :
  data self = Some df ->
  default_index df ->
  exists df1 na1 self1 na2,
    fill_na_with_mean self = Ok ((df1, na1), self1)
    /\ fill_na_with_mean self1 = Ok ((df1, na2), self1)
    /\ (forall i,
          In i na2 <->
          exists r, nth_error (body df) i = Some r
                    /\ forall x, ~ In (Some x) (cells (grades r))).
Proof.
  intros Hd Hi. rewrite (fill_na_with_mean_rowwise _ Hd Hi). cbv zeta.
  set (df1 := mkDF (index df) (saved df) (map impute (body df)) (score df)).
  set (self1 := mkSelf (data_fname self) (Some df1) (maximal_nans_per_sub self)).
  exists df1, (Np.where_ (map any_na (map grades (body df)))), self1,
         (Np.where_ (map any_na (map grades (body df1)))).
  split; [reflexivity|].
  rewrite (@fill_na_with_mean_rowwise self1 df1 eq_refl (default_index_imputed Hi)).
  cbv zeta. unfold self1, df1.
  cbn [index saved body score data_fname maximal_nans_per_sub].
  rewrite (map_map impute impute), (map_ext _ _ impute_twice).
  split; [reflexivity|].
  intros i. rewrite !map_map, where_spec, nth_map_error. split.
  - intros (r & Hr & H). exists r. split; [exact Hr|].
    apply any_na_impute. exact H.
  - intros (r & Hr & H). exists r. split; [exact Hr|].
    apply any_na_impute. exact H.
Qed.

Lemma fill_na_with_mean_twice_witness :
  exists df1 na1 self1 na2,
    fill_na_with_mean (loaded [participant "ab@c.de"; blank])
    = Ok ((df1, na1), self1)
    /\ fill_na_with_mean self1 = Ok ((df1, na2), self1)
    /\ (forall i,
          In i na2 <->
          exists r, nth_error [participant "ab@c.de"; blank] i = Some r
                    /\ forall x, ~ In (Some x) (cells (grades r))).
Proof.
  exact (@fill_na_with_mean_twice
           (loaded [participant "ab@c.de"; blank]) _ eq_refl eq_refl).
Defined.



End MeanFurther.

(** ** Bounds of a mean *)

Section Bounds.

Import Pd.

Lemma total_bounds lo hi xs :
  (forall x, In x xs -> (lo <= x)%Q /\ (x <= hi)%Q) ->
  (lo * inject_Z (Z.of_nat (List.length xs)) <= total xs)%Q
  /\ (total xs <= hi * inject_Z (Z.of_nat (List.length xs)))%Q.
Proof.
  induction xs as [|x xs IH]; intros H.
  - unfold total. simpl. split; ring_simplify; apply Qle_refl.
  - destruct IH as [IH1 IH2]; [intros y Hy; apply H; right; exact Hy|].
    destruct (H x (or_introl eq_refl)) as [H1 H2].
    cbn [List.length]. rewrite total_cons, Nat2Z.inj_succ. unfold Z.succ.
    rewrite inject_Z_plus.
    set (a := inject_Z (Z.of_nat (List.length xs))) in *.
    change (inject_Z 1) with 1%Q.
    split.
    + setoid_replace (lo * (a + 1))%Q with (lo * a + lo)%Q by ring.
      rewrite (Qplus_comm x). apply Qplus_le_compat; assumption.
    + setoid_replace (hi * (a + 1))%Q with (hi * a + hi)%Q by ring.
      rewrite (Qplus_comm x). apply Qplus_le_compat; assumption.
Qed.

Lemma present_within lo hi l x :
  forallb (cell_within lo hi) l = true -> In x (present l) ->
  (lo <= x)%Q /\ (x <= hi)%Q.
Proof.
  induction l as [|[y|] l IH]; simpl; intros H Hx.
  - contradiction.
  - apply andb_true_iff in H as [Hy H].
    destruct Hx as [<- | Hx]; [|auto].
    apply andb_true_iff in Hy as [H1 H2]. split; apply le_spec; assumption.
  - auto.
Qed.

(** The mean lies between the bounds of the values. *)
Lemma nanmean_within lo hi l m :
  forallb (cell_within lo hi) l = true ->
  nanmean l = Some m ->
  (lo <= m)%Q /\ (m <= hi)%Q.
Proof.
  intros Hw Hm.
  assert (Hn : 0 < List.length (present l)).
  { unfold nanmean in Hm. destruct (present l); [discriminate | simpl; lia]. }
  pose proof (@inject_nat_pos _ Hn) as Hpos.
  destruct (@total_bounds lo hi (present l)) as [T1 T2];
    [intros x Hx; exact (@present_within lo hi l x Hw Hx)|].
  apply nanmean_mean in Hm. rewrite Hm. unfold mean_of_present. split.
  - apply Qle_shift_div_l; assumption.
  - apply Qle_shift_div_r; assumption.
Qed.




End Bounds.

(** ** Scoring, further *)

Section ScoringFurther.

Import Pd.







(** X11.  The column [score] is overwritten, not accumulated: scoring
    with a threshold after scoring with another gives the table and the
    object that scoring with the last threshold alone gives; with the same
    threshold the second scoring changes nothing. *)
Theorem score_subjects_overwrites m m' self df :
  data self = Some df ->
  default_index df ->
  forallb (fun r => fits_UInt8 (score_of m (grades r))) (body df) = true ->
  forallb (fun r => fits_UInt8 (score_of m' (grades r))) (body df) = true ->
  exists df1 self1 df2 self2,
    score_subjects m self = Ok (df1, self1)
    /\ score_subjects m' self1 = Ok (df2, self2)
    /\ score_subjects m' self = Ok (df2, self2)
    /\ (m' = m -> df2 = df1 /\ self2 = self1).
Proof.
  intros Hd Hi Hf Hf'.
  rewrite (score_subjects_default _ _ Hd Hi Hf),
    (score_subjects_default _ _ Hd Hi Hf'). cbv zeta.
  set (df1 := mkDF (index df) (saved df) (body df)
                   (Some (map (fun r => score_of m (grades r)) (body df)))).
  set (self1 := mkSelf (data_fname self) (Some df1) (Some m)).
  pose proof (@score_subjects_default m' self1 df1 eq_refl Hi Hf') as E.
  cbv zeta in E.
  eexists df1, self1, _, _. split; [reflexivity|]. split; [exact E|].
  split; [reflexivity|]. intros ->. split; reflexivity.
Qed.

Lemma score_subjects_overwrites_witness :
  let rows := [mkRow (mark 30) (Some "male") "ab@c.de"
                     (mkGrades (mark 80) na na (mark 85) (mark 90)); blank] in
  exists df1 self1 df2 self2,
    score_subjects 1 (loaded rows) = Ok (df1, self1)
    /\ score_subjects 2 self1 = Ok (df2, self2)
    /\ score_subjects 2 (loaded rows) = Ok (df2, self2)
    /\ (2%Z = 1%Z -> df2 = df1 /\ self2 = self1).
Proof.
  exact (@score_subjects_overwrites 1 2
           (loaded [mkRow (mark 30) (Some "male") "ab@c.de"
                          (mkGrades (mark 80) na na (mark 85) (mark 90)); blank])
           _ eq_refl eq_refl eq_refl eq_refl).
Defined.

(** X12.  The column [score] cannot hold a value outside 0..255: when the
    floored mean of some row within the threshold is negative or above
    255, the scoring raises [TypeError]. *)
Theorem score_subjects_raises_TypeError m self df :
  data self = Some df ->
  default_index df ->
  forallb (fun r => fits_UInt8 (score_of m (grades r))) (body df) = false ->
  score_subjects m self = Raise TypeError.
Proof.
  intros Hd Hi Hf.
  unfold score_subjects, bind, self_data, set_maximal_nans_per_sub, lift.
  rewrite Hd. unfold Ok at 1 2. cbv iota beta zeta.
  set (mask := map (fun g => (m <? na_count g)%Z) (map grades (body df))).
  set (col := map (fun g => option_map Qfloor (row_mean g)) (map grades (body df))).
  assert (Lc : List.length col = List.length (body df))
    by (unfold col; rewrite !length_map; reflexivity).
  assert (Lm : List.length mask = List.length col)
    by (unfold mask, col; rewrite !length_map; reflexivity).
  rewrite Hi, <- Lc, <- Lm, (loc_set_nan_default _ _ Lm).
  unfold mask, col. rewrite masked_scores.
  unfold Ok. cbv iota beta.
  unfold to_UInt8. fold fits_UInt8. rewrite forallb_map_compose, Hf.
  reflexivity.
Qed.

Lemma score_subjects_raises_TypeError_witness :
  score_subjects 1
    (loaded [mkRow (mark 30) (Some "male") "ab@c.de"
                   (mkGrades (mark 300) (mark 300) (mark 300) (mark 300) (mark 300))])
  = Raise TypeError.
Proof.
  exact (@score_subjects_raises_TypeError 1
           (loaded [mkRow (mark 30) (Some "male") "ab@c.de"
                          (mkGrades (mark 300) (mark 300) (mark 300)
                                    (mark 300) (mark 300))])
           _ eq_refl eq_refl eq_refl).
Defined.

Lemma fits_within m g :
  forallb (cell_within (inject_Z 0) (inject_Z 255)) (cells g) = true ->
  fits_UInt8 (score_of m g) = true.
Proof.
  intros H. unfold score_of. destruct (m <? na_count g)%Z; [reflexivity|].
  unfold row_mean. destruct (nanmean (cells g)) as [mean|] eqn:E; [|reflexivity].
  destruct (@nanmean_within _ _ _ _ H E) as [H1 H2].
  apply Qfloor_resp_le in H1, H2. rewrite Qfloor_Z in H1, H2.
  simpl. apply andb_true_iff. split; [apply Z.leb_le | apply Z.leb_le]; assumption.
Qed.

(** X13.  Grades between 0 and 255 are enough for the scoring to return:
    on such a table no threshold makes it raise, and every score that is
    not NA lies between 0 and 255. *)
Theorem score_subjects_returns m self df :
  data self = Some df ->
  default_index df ->
  grades_within (inject_Z 0) (inject_Z 255) (body df) = true ->
  exists df' self' col,
    score_subjects m self = Ok (df', self')
    /\ score df' = Some col
    /\ (forall z, In (Some z) col -> (0 <= z <= 255)%Z).
Proof.
  intros Hd Hi Hw.
  assert (Hf : forallb (fun r => fits_UInt8 (score_of m (grades r))) (body df)
               = true).
  { apply forallb_forall. intros r Hr. apply fits_within.
    exact (@forallb_In _ _ _ _ Hw Hr). }
  rewrite (score_subjects_default _ _ Hd Hi Hf). cbv zeta.
  eexists _, _, _. split; [reflexivity|]. split; [reflexivity|].
  intros z Hz. apply in_map_iff in Hz as (r & E & Hr).
  pose proof (@forallb_In _ _ _ _ Hf Hr) as F. simpl in F. rewrite E in F.
  simpl in F. apply andb_true_iff in F as [F1 F2].
  apply Z.leb_le in F1, F2. lia.
Qed.

Lemma score_subjects_returns_witness :
  let rows := [participant "ab@c.de"; blank] in
  exists df' self' col,
    score_subjects 0 (loaded rows) = Ok (df', self')
    /\ score df' = Some col
    /\ (forall z, In (Some z) col -> (0 <= z <= 255)%Z).
Proof.
  exact (@score_subjects_returns 0 (loaded [participant "ab@c.de"; blank])
           _ eq_refl eq_refl eq_refl).
Defined.





Lemma score_of_monotone m m' g z :
  (m <= m')%Z -> score_of m g = Some z -> score_of m' g = Some z.
Proof.
  unfold score_of. intros H.
  destruct (Z.ltb_spec m (na_count g)); [discriminate|].
  destruct (Z.ltb_spec m' (na_count g)); [lia | auto].
Qed.

(** X15.  Raising the threshold only turns NA into scores: a score that a
    row has under a threshold is the score it has under every larger
    threshold, so the threshold decides whether a row is scored and never
    what its score is. *)
Theorem score_subjects_threshold_monotone m m' self df :
  data self = Some df ->
  default_index df ->
  (m <= m')%Z ->
  forallb (fun r => fits_UInt8 (score_of m' (grades r))) (body df) = true ->
  exists df1 self1 col1 df2 self2 col2,
    score_subjects m self = Ok (df1, self1)
    /\ score df1 = Some col1
    /\ score_subjects m' self = Ok (df2, self2)
    /\ score df2 = Some col2
    /\ (forall i z,
          nth_error col1 i = Some (Some z) -> nth_error col2 i = Some (Some z)).
Proof.
  intros Hd Hi Hm Hf'.
  assert (Hf : forallb (fun r => fits_UInt8 (score_of m (grades r))) (body df)
               = true).
  { apply forallb_forall. intros r Hr.
    destruct (score_of m (grades r)) as [z|] eqn:E; [|reflexivity].
    pose proof (@forallb_In _ _ _ _ Hf' Hr) as F. simpl in F.
    rewrite (score_of_monotone _ Hm E) in F. exact F. }
  rewrite (score_subjects_default _ _ Hd Hi Hf),
    (score_subjects_default _ _ Hd Hi Hf'). cbv zeta.
  eexists _, _, _, _, _, _.
  split; [reflexivity|]. split; [reflexivity|].
  split; [reflexivity|]. split; [reflexivity|].
  intros i z H. rewrite nth_error_map in *.
  destruct (nth_error (body df) i) as [r|]; [|discriminate].
  simpl in *. f_equal. apply (score_of_monotone _ Hm). congruence.
Qed.

Lemma score_subjects_threshold_monotone_witness :
  let rows := [mkRow (mark 30) (Some "male") "ab@c.de"
                     (mkGrades (mark 80) na na (mark 85) (mark 90)); blank] in
  exists df1 self1 col1 df2 self2 col2,
    score_subjects 1 (loaded rows) = Ok (df1, self1)
    /\ score df1 = Some col1
    /\ score_subjects 2 (loaded rows) = Ok (df2, self2)
    /\ score df2 = Some col2
    /\ (forall i z,
          nth_error col1 i = Some (Some z) -> nth_error col2 i = Some (Some z)).
Proof.
  exact (@score_subjects_threshold_monotone 1 2
           (loaded [mkRow (mark 30) (Some "male") "ab@c.de"
                          (mkGrades (mark 80) na na (mark 85) (mark 90)); blank])
           _ eq_refl eq_refl ltac:(lia) eq_refl).
Defined.

End ScoringFurther.

(** ** Grouping, further *)

Section GroupingFurther.

Import Pd.










End GroupingFurther.

(** ** How the methods compose *)

Section Composition.

Import Pd.

Lemma show_age_distrib_unfold self df :
  data self = Some df ->
  show_age_distrib self
  = Ok (Np.histogram (map age (body df))
                     (Np.linspace (inject_Z 0) (inject_Z 100) 11), self).
Proof.
  intros H. unfold show_age_distrib, bind, self_data. rewrite H. reflexivity.
Qed.

Lemma map_age_set_grades rows :
  forall gs,
    List.length gs = List.length rows ->
    map age (set_grades rows gs) = map age rows.
Proof.
  unfold set_grades.
  induction rows as [|r rows IH]; intros [|g gs] E; simpl in *;
    try reflexivity; try discriminate.
  f_equal. apply IH. lia.
Qed.

(** X18.  Neither the imputation nor the scoring touches the ages: the
    age distribution of the object after either of them is the one it had
    before. *)
Theorem age_distribution_unchanged self df :
  data self = Some df ->
  labelled df ->
  exists hist,
    show_age_distrib self = Ok (hist, self)
    /\ (forall df' na_index self',
          fill_na_with_mean self = Ok ((df', na_index), self') ->
          show_age_distrib self' = Ok (hist, self'))
    /\ (forall m df' self',
          score_subjects m self = Ok (df', self') ->
          show_age_distrib self' = Ok (hist, self')).
Proof.
  intros Hd Hl. rewrite (show_age_distrib_unfold _ Hd).
  eexists. split; [reflexivity|]. split.
  - intros df' na_index self' H. rewrite (fill_na_with_mean_unfold _ Hd) in H.
    cbv zeta in H. unfold Ok in H. injection H as <- _ <-.
    erewrite show_age_distrib_unfold by reflexivity. cbn [body].
    rewrite map_age_set_grades; [reflexivity|].
    rewrite length_fillna_T, length_combine, length_map. unfold labelled in Hl. lia.
  - intros m df' self' H.
    destruct (@score_subjects_inv _ _ _ _ _ Hd H) as (values & -> & ->).
    reflexivity.
Qed.

Lemma age_distribution_unchanged_witness :
  let rows := [participant "ab@c.de"; blank] in
  exists hist,
    show_age_distrib (loaded rows) = Ok (hist, loaded rows)
    /\ (forall df' na_index self',
          fill_na_with_mean (loaded rows) = Ok ((df', na_index), self') ->
          show_age_distrib self' = Ok (hist, self'))
    /\ (forall m df' self',
          score_subjects m (loaded rows) = Ok (df', self') ->
          show_age_distrib self' = Ok (hist, self')).
Proof.
  exact (@age_distribution_unchanged (loaded [participant "ab@c.de"; blank])
           _ eq_refl eq_refl).
Defined.

Lemma keeps_impute r : keeps (impute r) = keeps r.
Proof. reflexivity. Qed.

Lemma filter_map_impute rows :
  filter keeps (map impute rows) = map impute (filter keeps rows).
Proof.
  induction rows as [|r rows IH]; simpl; [reflexivity|].
  rewrite keeps_impute. destruct (keeps r); simpl; rewrite IH; reflexivity.
Qed.

(** X19.  The filter and the imputation commute on the rows: filtering
    the table after the imputation returns the rows that the imputation
    gives on the filtered table. *)
Theorem remove_rows_without_mail_commutes_with_fill self df :
  data self = Some df ->
  default_index df ->
  mem "level_0" (columns df) = false ->
  exists filled na1 self1 out1 out2 filled2 na2 self2,
    fill_na_with_mean self = Ok ((filled, na1), self1)
    /\ remove_rows_without_mail self1 = Ok (out1, self1)
    /\ remove_rows_without_mail self = Ok (out2, self)
    /\ fill_na_with_mean (holding self out2) = Ok ((filled2, na2), self2)
    /\ body out1 = body filled2.
Proof.
  intros Hd Hi Hc.
  rewrite (fill_na_with_mean_rowwise _ Hd Hi). cbv zeta.
  set (df1 := mkDF (index df) (saved df) (map impute (body df)) (score df)).
  set (self1 := mkSelf (data_fname self) (Some df1) (maximal_nans_per_sub self)).
  destruct (@remove_rows_without_mail_returns self1 df1 eq_refl) as (n1 & E1).
  { unfold df1, columns in *. simpl. exact Hc. }
  destruct (@remove_rows_without_mail_returns self df Hd Hc) as (n2 & E2).
  match type of E2 with _ = Ok (?o, _) => set (out2 := o) in * end.
  assert (Hi2 : default_index out2).
  { unfold default_index, out2. cbn [index body]. f_equal.
    rewrite <- select_map_filter. apply select_length.
    apply default_index_labelled. exact Hi. }
  pose proof (@fill_na_with_mean_rowwise (holding self out2) out2 eq_refl Hi2) as E3.
  cbv zeta in E3.
  eexists df1, _, self1, _, out2, _, _, _.
  split; [reflexivity|]. split; [exact E1|]. split; [exact E2|].
  split; [exact E3|]. cbn [body]. unfold df1. cbn [body].
  apply filter_map_impute.
Qed.

Lemma remove_rows_without_mail_commutes_with_fill_witness :
  let rows := [mkRow (mark 30) (Some "male") "ab@c.de"
                     (mkGrades (mark 80) na (mark 90) na (mark 95));
               participant "John@example.com"] in
  exists filled na1 self1 out1 out2 filled2 na2 self2,
    fill_na_with_mean (loaded rows) = Ok ((filled, na1), self1)
    /\ remove_rows_without_mail self1 = Ok (out1, self1)
    /\ remove_rows_without_mail (loaded rows) = Ok (out2, loaded rows)
    /\ fill_na_with_mean (holding (loaded rows) out2) = Ok ((filled2, na2), self2)
    /\ body out1 = body filled2.
Proof.
  exact (@remove_rows_without_mail_commutes_with_fill
           (loaded [mkRow (mark 30) (Some "male") "ab@c.de"
                          (mkGrades (mark 80) na (mark 90) na (mark 95));
                    participant "John@example.com"])
           _ eq_refl eq_refl eq_refl).
Defined.




End Composition.

(** ** The order of the rows *)

Section RowOrder.

Import Pd.

Lemma filter_perm {A} (p : A -> bool) l l' :
  Permutation l l' -> Permutation (filter p l) (filter p l').
Proof.
  induction 1 as [|x l l' H IH|x y l|l l' l'' H1 IH1 H2 IH2]; simpl.
  - constructor.
  - destruct (p x); [constructor|]; exact IH.
  - destruct (p x), (p y); try reflexivity. constructor.
  - etransitivity; eassumption.
Qed.

Lemma count_perm {A} (p : A -> bool) l l' :
  Permutation l l' -> Np.count p l = Np.count p l'.
Proof.
  intros H. unfold Np.count. f_equal.
  apply Permutation_length, filter_perm. exact H.
Qed.

Lemma histogram_perm a a' bins :
  Permutation a a' -> Np.histogram a bins = Np.histogram a' bins.
Proof.
  intros H. unfold Np.histogram, Np.search_sorted_inclusive.
  rewrite (map_ext (Np.searchsorted_left a) (Np.searchsorted_left a')),
    (map_ext (Np.searchsorted_right a) (Np.searchsorted_right a'));
    [reflexivity | |];
    intros v; [unfold Np.searchsorted_right | unfold Np.searchsorted_left];
    apply count_perm; exact H.
Qed.

(** X21.  The age distribution does not depend on the order of the rows:
    two tables whose rows are a rearrangement of each other have the same
    histogram. *)
Theorem show_age_distrib_row_order self self' df df' :
  data self = Some df ->
  data self' = Some df' ->
  Permutation (body df) (body df') ->
  exists hist,
    show_age_distrib self = Ok (hist, self)
    /\ show_age_distrib self' = Ok (hist, self').
Proof.
  intros Hd Hd' Hp.
  rewrite (show_age_distrib_unfold _ Hd), (show_age_distrib_unfold _ Hd').
  eexists. split; [reflexivity|].
  rewrite (@histogram_perm (map age (body df')) (map age (body df)));
    [reflexivity|].
  apply Permutation_map. symmetry. exact Hp.
Qed.

Lemma show_age_distrib_row_order_witness :
  exists hist,
    show_age_distrib (loaded [participant "ab@c.de"; blank])
    = Ok (hist, loaded [participant "ab@c.de"; blank])
    /\ show_age_distrib (loaded [blank; participant "ab@c.de"])
       = Ok (hist, loaded [blank; participant "ab@c.de"]).
Proof.
  exact (@show_age_distrib_row_order
           (loaded [participant "ab@c.de"; blank])
           (loaded [blank; participant "ab@c.de"]) _ _ eq_refl eq_refl
           (perm_swap _ _ _)).
Defined.










End RowOrder.
